(** * WCDB repair kit: [FileHandle], positioned I/O over a descriptor

    A shallow embedding of [repair/utility/FileHandle.cpp].  Each method of
    the C++ class is a function in a small state monad over a [World] that
    holds what the method can touch besides the handle itself: the kernel
    (descriptor table, the file's bytes, [errno]), the caller's memory, the
    [Notifier] broadcast log and the per-thread error slots. *)

From stdpp Require Import gmap strings list.
From Stdlib Require Import ZArith Lia.
From Stdlib.Strings Require Import Byte.

Open Scope Z_scope.

(** ** C integer types (LP64) *)

Module C.

Definition SIZE_MOD : Z := Eval cbv in 2 ^ 64.
Definition SSIZE_MAX : Z := Eval cbv in 2 ^ 63 - 1.

(** Conversion to [size_t]: reduction modulo 2^64. *)
Definition size_t (z : Z) : Z := z mod SIZE_MOD.

(** Conversion to [ssize_t]: the two's complement reading of the low 64
    bits.  [off_t] has the same width and is converted the same way. *)
Definition ssize_t (z : Z) : Z := (z + (SSIZE_MAX + 1)) mod SIZE_MOD - (SSIZE_MAX + 1).

Definition off_t (z : Z) : Z := ssize_t z.

End C.

(** ** Constants of <fcntl.h>, <sys/stat.h>, <unistd.h>, <errno.h> (Linux) *)

Module Sys.

Definition O_RDONLY : Z := 0.
Definition O_WRONLY : Z := 1.
Definition O_CREAT : Z := 64.
Definition O_TRUNC : Z := 512.

Definition S_IRWXU : Z := 448.
Definition S_IRGRP : Z := 32.
Definition S_IROTH : Z := 4.

Definition SEEK_SET : Z := 0.
Definition SEEK_CUR : Z := 1.
Definition SEEK_END : Z := 2.

Definition EINTR : Z := 4.
Definition EINVAL : Z := 22.

End Sys.

(** ** [FileHandle::Mode] *)

Module Mode.

Inductive t : Set := None | OverWrite | ReadOnly.

Definition eqb (a b : t) : bool :=
  match a, b with
  | None, None | OverWrite, OverWrite | ReadOnly, ReadOnly => true
  | _, _ => false
  end.

End Mode.

(** ** [Error] *)

Module Error.

Inductive Code : Set := OK | IOError.

(** Modelled from the spec: the [Error] class (Error.hpp is not part of the
    sources).  "A system error code (the OS error number), a kind tag (I/O
    failure), a human-readable message (the OS-provided description of that
    code), and a context map that always includes the file's path." *)
Record t : Type := mk {
  code : Code;
  systemCode : option Z;
  message : string;
  infos : gmap string string
}.

(** A default-constructed [Error]. *)
Definition empty : t := mk OK Datatypes.None EmptyString ∅.

(** [error.setSystemCode(systemCode, codeIfUnresolved)]. *)
Definition setSystemCode (sys : Z) (c : Code) (e : t) : t :=
  mk c (Some sys) (message e) (infos e).

(** [error.message = m]. *)
Definition setMessage (m : string) (e : t) : t :=
  mk (code e) (systemCode e) m (infos e).

(** [error.infos.set(key, value)]. *)
Definition infosSet (key value : string) (e : t) : t :=
  mk (code e) (systemCode e) (message e) (<[key := value]> (infos e)).

End Error.

(** ** The world around a handle *)

(** A system call as the kernel sees it. *)
Inductive SysCall : Type :=
| SysOpen (path : string) (flags : Z) (mode : option Z)
| SysClose (fd : Z)
| SysLseek (fd offset whence : Z)
| SysPread (fd buffer size offset : Z)
| SysPwrite (fd buffer size offset : Z).

(** What the kernel decides for one system call.  [Ret v]: the call
    succeeds; [v] is the new descriptor for [open], the number of bytes
    moved for [pread] and [pwrite], and is not looked at by [close] and
    [lseek].  [Err e]: the call returns -1 and sets [errno] to [e]. *)
Inductive Answer : Type := Ret (v : Z) | Err (e : Z).

Record World : Type := mkWorld {
  script : list Answer;          (* the kernel's decisions for the calls to come *)
  calls : list SysCall;          (* the system calls issued so far, oldest first *)
  errno : Z;
  fdtable : gmap Z Z;            (* live descriptors, each with its file-position cursor *)
  content : list byte;           (* the bytes of the file the handle's path names *)
  mem : list byte;               (* the caller's memory; a pointer is an index into it *)
  notified : list Error.t;       (* what Notifier::shared() has been sent, oldest first *)
  self : nat;                    (* the calling thread *)
  slots : gmap nat Error.t;      (* the threaded error of each thread *)
  fatals : list string           (* messages of failed remedial assertions *)
}.

(** ** Outcomes and the monad of methods *)

Inductive Outcome (A : Type) : Type :=
| Done (a : A) (w : World)       (* the method returned [a] *)
| Abort (w : World)              (* an inner assertion stopped the process *)
| Starved.                       (* the script has no answer for a system call *)

Arguments Done {A} a w.
Arguments Abort {A} w.
Arguments Starved {A}.

Definition M (A : Type) : Type := World → Outcome A.

Definition ret {A} (a : A) : M A := λ w, Done a w.

Definition bind {A B} (m : M A) (f : A → M B) : M B :=
  λ w, match m w with
       | Done a w' => f a w'
       | Abort w' => Abort w'
       | Starved => Starved
       end.

Declare Scope io_scope.
Delimit Scope io_scope with io.
Notation "x <- m ;; k" := (bind m (λ x, k))
  (at level 100, m at next level, right associativity) : io_scope.
Notation "m ;; k" := (bind m (λ _, k))
  (at level 100, right associativity) : io_scope.
Open Scope io_scope.

Definition abort {A} : M A := λ w, Abort w.

Definition getErrno : M Z := λ w, Done (errno w) w.

(** The value a method returned, if it returned. *)
Definition returned {A} (o : Outcome A) : option A :=
  match o with Done a _ => Some a | _ => Datatypes.None end.

(** The world a method left behind, if it returned. *)
Definition world_after {A} (o : Outcome A) : option World :=
  match o with Done _ w => Some w | _ => Datatypes.None end.

(** Field updates of the world. *)
Definition set_script (x : list Answer) (w : World) : World :=
  mkWorld x (calls w) (errno w) (fdtable w) (content w) (mem w) (notified w) (self w) (slots w) (fatals w).
Definition set_calls (x : list SysCall) (w : World) : World :=
  mkWorld (script w) x (errno w) (fdtable w) (content w) (mem w) (notified w) (self w) (slots w) (fatals w).
Definition set_errno (x : Z) (w : World) : World :=
  mkWorld (script w) (calls w) x (fdtable w) (content w) (mem w) (notified w) (self w) (slots w) (fatals w).
Definition set_fdtable (x : gmap Z Z) (w : World) : World :=
  mkWorld (script w) (calls w) (errno w) x (content w) (mem w) (notified w) (self w) (slots w) (fatals w).
Definition set_content (x : list byte) (w : World) : World :=
  mkWorld (script w) (calls w) (errno w) (fdtable w) x (mem w) (notified w) (self w) (slots w) (fatals w).
Definition set_mem (x : list byte) (w : World) : World :=
  mkWorld (script w) (calls w) (errno w) (fdtable w) (content w) x (notified w) (self w) (slots w) (fatals w).
Definition set_notified (x : list Error.t) (w : World) : World :=
  mkWorld (script w) (calls w) (errno w) (fdtable w) (content w) (mem w) x (self w) (slots w) (fatals w).
Definition set_slots (x : gmap nat Error.t) (w : World) : World :=
  mkWorld (script w) (calls w) (errno w) (fdtable w) (content w) (mem w) (notified w) (self w) x (fatals w).
Definition set_fatals (x : list string) (w : World) : World :=
  mkWorld (script w) (calls w) (errno w) (fdtable w) (content w) (mem w) (notified w) (self w) (slots w) x.

(** ** The kernel *)

Module Posix.

(** [n] bytes of [l] from position [from] on, as many as there are. *)
Definition slice (l : list byte) (from n : Z) : list byte :=
  take (Z.to_nat n) (drop (Z.to_nat from) l).

(** [dst] with [src] written over it from position [pos] on; a gap between
    the end of [dst] and [pos] reads as zero bytes. *)
Definition splice (dst : list byte) (pos : Z) (src : list byte) : list byte :=
  take (Z.to_nat pos) dst
  ++ replicate (Z.to_nat pos - length dst)%nat x00
  ++ src
  ++ drop (Z.to_nat pos + length src)%nat dst.

(** Entering the kernel: the call is logged and the next answer taken. *)
Definition syscall (c : SysCall) : M Answer :=
  λ w, match script w with
       | [] => Starved
       | a :: s => Done a (set_calls (calls w ++ [c]) (set_script s w))
       end.

Definition fail (e : Z) : M Z := λ w, Done (-1) (set_errno e w).

(** [open(2)]: on success the new descriptor enters the table with its
    cursor at 0, and [O_TRUNC] empties the file. *)
Definition open (path : string) (flags : Z) (mode : option Z) : M Z :=
  a <- syscall (SysOpen path flags mode) ;;
  match a with
  | Ret fd =>
      λ w, let w1 := if Z.land flags Sys.O_TRUNC =? 0 then w else set_content [] w in
           Done fd (set_fdtable (<[fd := 0]> (fdtable w1)) w1)
  | Err e => fail e
  end.

(** [close(2)]: on success the descriptor leaves the table. *)
Definition close (fd : Z) : M Z :=
  a <- syscall (SysClose fd) ;;
  match a with
  | Ret _ => λ w, Done 0 (set_fdtable (delete fd (fdtable w)) w)
  | Err e => fail e
  end.

(** [lseek(2)]: on success the cursor of the descriptor moves to the new
    position, which is returned. *)
Definition lseek (fd offset whence : Z) : M Z :=
  a <- syscall (SysLseek fd offset whence) ;;
  match a with
  | Ret _ =>
      λ w, let base :=
             if whence =? Sys.SEEK_SET then Some 0
             else if whence =? Sys.SEEK_CUR then Some (default 0 (fdtable w !! fd))
             else if whence =? Sys.SEEK_END then Some (Z.of_nat (length (content w)))
             else Datatypes.None in
           match base with
           | Some b =>
               let pos := b + offset in
               Done pos (set_fdtable (alter (λ _, pos) fd (fdtable w)) w)
           | Datatypes.None => fail Sys.EINVAL w
           end
  | Err e => fail e
  end.

(** [pread(2)]: on success [v] bytes of the file from [offset] on are copied
    to the caller's memory at [buffer]; no cursor is read or moved. *)
Definition pread (fd buffer size offset : Z) : M Z :=
  a <- syscall (SysPread fd buffer size offset) ;;
  match a with
  | Ret v =>
      λ w, Done v (if 0 <? v
                   then set_mem (splice (mem w) buffer (slice (content w) offset v)) w
                   else w)
  | Err e => fail e
  end.

(** [pwrite(2)]: on success [v] bytes of the caller's memory at [buffer] are
    copied into the file from [offset] on; no cursor is read or moved. *)
Definition pwrite (fd buffer size offset : Z) : M Z :=
  a <- syscall (SysPwrite fd buffer size offset) ;;
  match a with
  | Ret v =>
      λ w, Done v (if 0 <? v
                   then set_content (splice (content w) offset (slice (mem w) buffer v)) w
                   else w)
  | Err e => fail e
  end.

End Posix.

(** ** Collaborators *)

Module Notifier.

(** Modelled from the spec: [Notifier::shared()->notify(error)] (Notifier.hpp
    is not part of the sources).  "Publishes it to the process-wide
    broadcast collaborator (fire-and-forget)": the error is appended to what
    the collaborator has received. *)
Definition notify (error : Error.t) : M unit :=
  λ w, Done () (set_notified (notified w ++ [error]) w).

(** Modelled from the spec: the report of a failed assertion (Assertion.hpp
    is not part of the sources); the message is kept in a log of its own. *)
Definition fatal (message : string) : M unit :=
  λ w, Done () (set_fatals (fatals w ++ [message]) w).

End Notifier.

Module SharedThreadedErrorProne.

(** Modelled from the spec: [SharedThreadedErrorProne::setThreadedError]
    (not part of the sources).  "Stores a copy into the calling thread's
    private error slot, overwriting any previous value there." *)
Definition setThreadedError (error : Error.t) : M unit :=
  λ w, Done () (set_slots (<[self w := error]> (slots w)) w).

End SharedThreadedErrorProne.

(** ** What the build and the C library fix *)

Class Platform : Type := {
  (** whether [WCTInnerAssert] is compiled in (development builds) *)
  inner_assertions : bool;
  (** [strerror(3)] *)
  strerror : Z → string
}.

Section Assertion.

Context {P : Platform}.

(** Modelled from the spec: [WCTInnerAssert(cond)] (Assertion.hpp is not part
    of the sources).  "Precondition violations meant to catch caller bugs
    during development, not recoverable run-time conditions": where the
    assertion is compiled in, a false condition stops the process; elsewhere
    the macro expands to nothing. *)
Definition WCTInnerAssert (cond : bool) : M unit :=
  if inner_assertions && negb cond then abort else ret ().

(** Modelled from the spec: [WCTRemedialAssert(cond, message, remedial)]
    (Assertion.hpp is not part of the sources).  When the condition is
    false the message is reported and the remedial statements run; [k] is
    what follows the macro when the condition holds. *)
Definition WCTRemedialAssert {A} (cond : bool) (message : string)
    (remedial : M A) (k : M A) : M A :=
  if cond then k else (Notifier.fatal message ;; remedial).

End Assertion.

(** ** [FileHandle] *)

Module FileHandle.

Record t : Type := mk {
  path : string;
  m_fd : Z;
  m_mode : Mode.t
}.

Definition set_fd (fd : Z) (this : t) : t := mk (path this) fd (m_mode this).
Definition set_mode (m : Mode.t) (this : t) : t := mk (path this) (m_fd this) m.

(** [FileHandle::FileHandle(const std::string &path_)] *)
Definition new (path_ : string) : t := mk path_ (-1) Mode.None.

(** [FileHandle::FileHandle(FileHandle &&other)]: the new handle, and
    [other] as the constructor leaves it. *)
Definition move_construct (other : t) : t * t :=
  let this := mk (path other) (m_fd other) (m_mode other) in
  let other := set_fd (-1) other in
  let other := set_mode Mode.None other in
  (this, other).

(** [FileHandle::isOpened] *)
Definition isOpened (this : t) : bool := negb (m_fd this =? -1).

Section Methods.

Context {P : Platform}.

(** [FileHandle::operator=(FileHandle &&other)], for two distinct objects:
    [this] and [other] as the assignment leaves them. *)
Definition move_assign (this other : t) : M (t * t) :=
  WCTInnerAssert (bool_decide (path this = path other)) ;;
  let this := set_fd (m_fd other) this in
  let other := set_fd (-1) other in
  ret (this, other).

(** [FileHandle::setThreadedError] *)
Definition setThreadedError (this : t) : M unit :=
  e <- getErrno ;;
  let error := Error.empty in
  let error := Error.setSystemCode e Error.IOError error in
  let error := Error.setMessage (strerror e) error in
  let error := Error.infosSet "Path" (path this) error in
  Notifier.notify error ;;
  SharedThreadedErrorProne.setThreadedError error.

(** [FileHandle::open]: the value returned and the handle as left. *)
Definition open (mode : Mode.t) (this : t) : M (bool * t) :=
  WCTInnerAssert (negb (Mode.eqb mode Mode.None)) ;;
  WCTRemedialAssert (negb (isOpened this)) "File already is opened"
    (ret (true, this))
    (let flag := 0 in
     switched <-
       match mode with
       | Mode.OverWrite =>
           fd <- Posix.open (path this)
                   (Z.lor (Z.lor Sys.O_CREAT Sys.O_WRONLY) Sys.O_TRUNC)
                   (Some (Z.lor (Z.lor Sys.S_IRWXU Sys.S_IRGRP) Sys.S_IROTH)) ;;
           ret (Some (set_fd fd this))
       | Mode.ReadOnly =>
           fd <- Posix.open (path this) Sys.O_RDONLY Datatypes.None ;;
           ret (Some (set_fd fd this))
       | Mode.None => ret Datatypes.None
       end ;;
     match switched with
     | Datatypes.None => ret (false, this)
     | Some this =>
         fd <- Posix.open (path this) flag Datatypes.None ;;
         let this := set_fd fd this in
         if m_fd this =? -1 then
           setThreadedError this ;;
           ret (false, this)
         else ret (true, this)
     end).

(** [FileHandle::close] *)
Definition close (this : t) : M t :=
  WCTInnerAssert (isOpened this) ;;
  if negb (m_fd this =? -1) then
    Posix.close (m_fd this) ;;
    ret (set_fd (-1) this)
  else ret this.

(** [FileHandle::~FileHandle] *)
Definition destroy (this : t) : M t :=
  WCTRemedialAssert
    (negb (isOpened this) || negb (Mode.eqb (m_mode this) Mode.OverWrite))
    "Close should be call manually to sync file."
    (close this)
    (ret this).

(** [FileHandle::size] *)
Definition size (this : t) : M Z :=
  WCTInnerAssert (negb (m_fd this =? -1)) ;;
  pos <- Posix.lseek (m_fd this) 0 Sys.SEEK_END ;;
  ret (C.ssize_t pos).

(** The [do ... while (got > 0)] loop of [FileHandle::read].  [size] and
    [prior] are [size_t], [offset] is [off_t], [got] is [ssize_t]; mixed
    operands are converted to [size_t] as C does, and [off_t] arithmetic
    wraps as on a two's complement machine.  Every turn enters the kernel
    once, so [fuel] above the length of the script is never used up
    ([read_loop_fuel]). *)
Fixpoint read_loop (fuel : nat) (this : t) (buffer offset size prior : Z) : M Z :=
  match fuel with
  | O => λ _, Starved
  | S fuel =>
      got <- Posix.pread (m_fd this) buffer size offset ;;
      if C.size_t got =? size then
        ret (C.ssize_t (C.size_t got + prior))
      else if got <? 0 then
        e <- getErrno ;;
        if e =? Sys.EINTR then
          let got := 1 in
          if 0 <? got then read_loop fuel this buffer offset size prior
          else ret (C.ssize_t (C.size_t got + prior))
        else
          let prior := 0 in
          setThreadedError this ;;
          ret (C.ssize_t (C.size_t got + prior))
      else if 0 <? got then
        let size := C.size_t (size - C.size_t got) in
        let offset := C.off_t (offset + got) in
        let prior := C.size_t (prior + C.size_t got) in
        let buffer := got + buffer in
        if 0 <? got then read_loop fuel this buffer offset size prior
        else ret (C.ssize_t (C.size_t got + prior))
      else
        if 0 <? got then read_loop fuel this buffer offset size prior
        else ret (C.ssize_t (C.size_t got + prior))
  end.

(** [FileHandle::read] *)
Definition read (this : t) (buffer offset size : Z) : M Z :=
  WCTInnerAssert (negb (m_fd this =? -1)) ;;
  let prior := 0 in
  λ w, read_loop (S (length (script w))) this buffer offset size prior w.

(** The [do ... while (wrote > 0)] loop of [FileHandle::write].  Here
    [prior] is [ssize_t]. *)
Fixpoint write_loop (fuel : nat) (this : t) (buffer offset size prior : Z) : M Z :=
  match fuel with
  | O => λ _, Starved
  | S fuel =>
      wrote <- Posix.pwrite (m_fd this) buffer size offset ;;
      if C.size_t wrote =? size then
        ret (C.ssize_t (wrote + prior))
      else if wrote <? 0 then
        e <- getErrno ;;
        if e =? Sys.EINTR then
          let wrote := 1 in
          if 0 <? wrote then write_loop fuel this buffer offset size prior
          else ret (C.ssize_t (wrote + prior))
        else
          setThreadedError this ;;
          ret (C.ssize_t (wrote + prior))
      else if 0 <? wrote then
        let size := C.size_t (size - C.size_t wrote) in
        let offset := C.off_t (offset + wrote) in
        let prior := C.ssize_t (prior + wrote) in
        let buffer := wrote + buffer in
        if 0 <? wrote then write_loop fuel this buffer offset size prior
        else ret (C.ssize_t (wrote + prior))
      else
        if 0 <? wrote then write_loop fuel this buffer offset size prior
        else ret (C.ssize_t (wrote + prior))
  end.

(** [FileHandle::write] *)
Definition write (this : t) (buffer offset size : Z) : M Z :=
  WCTInnerAssert (negb (m_fd this =? -1)) ;;
  let prior := 0 in
  λ w, write_loop (S (length (script w))) this buffer offset size prior w.

End Methods.

End FileHandle.

(** ** Sample platforms and a sample world *)

(** A few messages of glibc's [strerror]. *)
Definition glibc_strerror (e : Z) : string :=
  if e =? 2 then "No such file or directory"
  else if e =? 4 then "Interrupted system call"
  else if e =? 5 then "Input/output error"
  else if e =? 13 then "Permission denied"
  else "Unknown error".

Definition release_build : Platform :=
  {| inner_assertions := false; strerror := glibc_strerror |}.

Definition development_build : Platform :=
  {| inner_assertions := true; strerror := glibc_strerror |}.

(** A world in which nothing has happened yet: the file holds [file], the
    caller's memory holds [memory], and the kernel will answer [answers]. *)
Definition fresh (answers : list Answer) (file memory : list byte) : World :=
  mkWorld answers [] 0 ∅ file memory [] 0%nat ∅ [].

(** "hello" *)
Definition hello : list byte := [x68; x65; x6c; x6c; x6f].
Definition zeros5 : list byte := [x00; x00; x00; x00; x00].
(** "world" *)
Definition payload : list byte := [x77; x6f; x72; x6c; x64].

(** A handle on "a.db" that holds descriptor 3. *)
Definition opened3 : FileHandle.t := FileHandle.mk "a.db" 3 Mode.None.

(** A world in which descriptor 3 is live with its cursor at 0, the file
    holds "hello", and the kernel will answer [answers]. *)
Definition with_fd3 (answers : list Answer) : World :=
  mkWorld answers [] 0 {[ 3 := 0 ]} hello zeros5 [] 0%nat ∅ [].


(** ** Vocabulary for scripts *)

(** The bytes a run of answers moves: the sum of its [Ret] values. *)
Fixpoint moved (l : list Answer) : Z :=
  match l with
  | [] => 0
  | Ret v :: l => v + moved l
  | Err _ :: l => moved l
  end.

(** An attempt after which the transfer loop goes on: a transfer of at least
    one byte, or an interruption by a signal. *)
Definition progresses (a : Answer) : Prop :=
  match a with
  | Ret v => 1 ≤ v
  | Err e => e = Sys.EINTR
  end.

(** The [Error] that [FileHandle::setThreadedError] builds for the handle at
    [path] when [errno] is [e]. *)
Definition io_error {P : Platform} (path : string) (e : Z) : Error.t :=
  Error.mk Error.IOError (Some e) (strerror e) {[ "Path" := path ]}.

(** What a run of reads leaves alone. *)
Definition read_frame (w w' : World) : Prop :=
  notified w' = notified w ∧ slots w' = slots w ∧ self w' = self w
  ∧ content w' = content w ∧ fdtable w' = fdtable w ∧ fatals w' = fatals w.

(** What a run of writes leaves alone. *)
Definition write_frame (w w' : World) : Prop :=
  notified w' = notified w ∧ slots w' = slots w ∧ self w' = self w
  ∧ mem w' = mem w ∧ fdtable w' = fdtable w ∧ fatals w' = fatals w.

(** A positioned read, respectively write, on descriptor [fd]. *)
Definition is_pread (fd : Z) (c : SysCall) : Prop :=
  ∃ buffer size offset, c = SysPread fd buffer size offset.

Definition is_pwrite (fd : Z) (c : SysCall) : Prop :=
  ∃ buffer size offset, c = SysPwrite fd buffer size offset.

(** An answer a kernel can give: a successful call does not return a
    negative value. *)
Definition sane (a : Answer) : Prop :=
  match a with
  | Ret v => 0 ≤ v
  | Err _ => True
  end.

Arguments C.size_t : simpl never.
Arguments C.ssize_t : simpl never.
Arguments C.off_t : simpl never.
Arguments Posix.slice : simpl never.
Arguments Posix.splice : simpl never.

(** * Properties *)

(** ** Integer conversions *)

Lemma size_t_small z : 0 ≤ z < C.SIZE_MOD → C.size_t z = z.
Proof. intros Hz. unfold C.size_t. apply Z.mod_small, Hz. Qed.

Lemma ssize_t_small z : - (C.SSIZE_MAX + 1) ≤ z ≤ C.SSIZE_MAX → C.ssize_t z = z.
Proof.
  intros Hz. unfold C.ssize_t.
  rewrite Z.mod_small; unfold C.SSIZE_MAX, C.SIZE_MOD in *; lia.
Qed.

Lemma size_t_minus_one : C.size_t (-1) = C.SIZE_MOD - 1.
Proof. reflexivity. Qed.

(** ** Slices and splices *)

Lemma length_slice l from n :
  0 ≤ from → 0 ≤ n → from + n ≤ Z.of_nat (length l) →
  length (Posix.slice l from n) = Z.to_nat n.
Proof.
  intros Hf Hn Hl. unfold Posix.slice.
  rewrite length_take, length_drop. lia.
Qed.

Lemma slice_app l from n1 n2 :
  0 ≤ from → 0 ≤ n1 → 0 ≤ n2 →
  Posix.slice l from n1 ++ Posix.slice l (from + n1) n2 = Posix.slice l from (n1 + n2).
Proof.
  intros Hf H1 H2. unfold Posix.slice.
  rewrite !Z2Nat.inj_add by lia.
  rewrite <- drop_drop. apply take_take_drop.
Qed.

Lemma splice_nil dst pos :
  (Z.to_nat pos ≤ length dst)%nat → Posix.splice dst pos [] = dst.
Proof.
  intros Hp. unfold Posix.splice.
  replace (Z.to_nat pos - length dst)%nat with 0%nat by lia.
  cbn [replicate app length]. rewrite Nat.add_0_r. apply take_drop.
Qed.

Lemma length_splice_ge dst pos src :
  (Z.to_nat pos + length src ≤ length (Posix.splice dst pos src))%nat.
Proof.
  unfold Posix.splice.
  rewrite !length_app, length_take, length_replicate, length_drop. lia.
Qed.

Lemma splice_splice dst pos s1 s2 :
  0 ≤ pos →
  Posix.splice (Posix.splice dst pos s1) (pos + Z.of_nat (length s1)) s2
  = Posix.splice dst pos (s1 ++ s2).
Proof.
  intros Hp.
  pose proof (length_splice_ge dst pos s1) as Hlen.
  unfold Posix.splice at 1.
  replace (Z.to_nat (pos + Z.of_nat (length s1))) with (Z.to_nat pos + length s1)%nat by lia.
  replace (Z.to_nat pos + length s1 - length (Posix.splice dst pos s1))%nat with 0%nat by lia.
  cbn [replicate app].
  unfold Posix.splice.
  set (head := take (Z.to_nat pos) dst ++ replicate (Z.to_nat pos - length dst)%nat x00).
  assert (Hhead : length head = Z.to_nat pos).
  { unfold head. rewrite length_app, length_take, length_replicate. lia. }
  rewrite !(assoc_L (++) (take _ dst)). fold head.
  rewrite (assoc_L (++) head s1).
  rewrite take_app_length' by (rewrite length_app; lia).
  rewrite drop_app_add' by (rewrite length_app; lia).
  rewrite drop_drop, length_app.
  rewrite <- !(assoc_L (++)).
  do 3 f_equal. f_equal. lia.
Qed.

(** ** One turn of the transfer loops *)

Section Loops.

Context {P : Platform}.

Lemma moved_app l1 l2 : moved (l1 ++ l2) = moved l1 + moved l2.
Proof.
  induction l1 as [|[v|e] l1 IH]; cbn [moved app]; lia.
Qed.

Lemma moved_nonneg l : Forall progresses l → 0 ≤ moved l.
Proof.
  induction 1 as [|[v|e] l Ha Hl IH]; cbn [moved progresses] in *; lia.
Qed.

Lemma moved_map_Ret (counts : list Z) : moved (Ret <$> counts) = foldr Z.add 0 counts.
Proof.
  induction counts as [|v counts IH]; cbn [moved fmap list_fmap foldr]; [done|].
  fold (Ret <$> counts). lia.
Qed.

Lemma progresses_map_Ret (counts : list Z) :
  Forall (λ v, 1 ≤ v) counts → Forall progresses (Ret <$> counts).
Proof.
  induction 1; constructor; done.
Qed.

(** A short transfer: the loop goes on behind the bytes moved. *)
Lemma read_loop_short f this buffer offset size prior w v s :
  script w = Ret v :: s → 1 ≤ v → v < size → size < C.SIZE_MOD →
  FileHandle.read_loop (S f) this buffer offset size prior w
  = FileHandle.read_loop f this (v + buffer) (C.off_t (offset + v))
      (C.size_t (size - C.size_t v)) (C.size_t (prior + C.size_t v))
      (set_mem (Posix.splice (mem w) buffer (Posix.slice (content w) offset v))
         (set_calls (calls w ++ [SysPread (FileHandle.m_fd this) buffer size offset])
            (set_script s w))).
Proof.
  intros Hs Hv Hlt Hsz.
  cbn [FileHandle.read_loop]. unfold bind at 1. unfold Posix.pread, bind, Posix.syscall.
  rewrite Hs.
  assert (Hpos : (0 <? v) = true) by (apply Z.ltb_lt; lia).
  rewrite Hpos.
  rewrite (size_t_small v) by lia.
  assert (Hne : (v =? size) = false) by (apply Z.eqb_neq; lia).
  assert (Hnn : (v <? 0) = false) by (apply Z.ltb_ge; lia).
  rewrite Hne, Hnn. reflexivity.
Qed.

(** An interrupted attempt: the loop asks again for the same bytes. *)
Lemma read_loop_interrupted f this buffer offset size prior w s :
  script w = Err Sys.EINTR :: s → size ≠ C.SIZE_MOD - 1 →
  FileHandle.read_loop (S f) this buffer offset size prior w
  = FileHandle.read_loop f this buffer offset size prior
      (set_errno Sys.EINTR
         (set_calls (calls w ++ [SysPread (FileHandle.m_fd this) buffer size offset])
            (set_script s w))).
Proof.
  intros Hs Hsz.
  cbn [FileHandle.read_loop]. unfold bind at 1. unfold Posix.pread, bind, Posix.syscall.
  rewrite Hs. unfold Posix.fail.
  rewrite size_t_minus_one.
  assert (Hne : (C.SIZE_MOD - 1 =? size) = false) by (apply Z.eqb_neq; lia).
  rewrite Hne. reflexivity.
Qed.

(** The attempt that moves all the bytes still asked for ends the loop. *)
Lemma read_loop_full f this buffer offset size prior w s :
  script w = Ret size :: s → 0 ≤ size < C.SIZE_MOD →
  FileHandle.read_loop (S f) this buffer offset size prior w
  = Done (C.ssize_t (size + prior))
      (let w1 := set_calls (calls w ++ [SysPread (FileHandle.m_fd this) buffer size offset])
                   (set_script s w) in
       if 0 <? size
       then set_mem (Posix.splice (mem w) buffer (Posix.slice (content w) offset size)) w1
       else w1).
Proof.
  intros Hs Hsz.
  cbn [FileHandle.read_loop]. unfold bind at 1. unfold Posix.pread, bind, Posix.syscall.
  rewrite Hs.
  rewrite (size_t_small size) by lia.
  rewrite Z.eqb_refl. reflexivity.
Qed.

(** An attempt that fails for another reason than a signal ends the loop:
    the count so far is dropped and the error recorded. *)
Lemma read_loop_error f this buffer offset size prior w e s :
  script w = Err e :: s → e ≠ Sys.EINTR → size ≠ C.SIZE_MOD - 1 →
  FileHandle.read_loop (S f) this buffer offset size prior w
  = Done (-1)
      (set_slots (<[self w := io_error (FileHandle.path this) e]> (slots w))
         (set_notified (notified w ++ [io_error (FileHandle.path this) e])
            (set_errno e
               (set_calls (calls w ++ [SysPread (FileHandle.m_fd this) buffer size offset])
                  (set_script s w))))).
Proof.
  intros Hs He Hsz.
  cbn [FileHandle.read_loop]. unfold bind at 1. unfold Posix.pread, bind, Posix.syscall.
  rewrite Hs. unfold Posix.fail.
  rewrite size_t_minus_one.
  assert (Hne : (C.SIZE_MOD - 1 =? size) = false) by (apply Z.eqb_neq; lia).
  rewrite Hne.
  assert (Hee : (e =? Sys.EINTR) = false) by (apply Z.eqb_neq; lia).
  cbn. rewrite Hee. reflexivity.
Qed.

(** An attempt that moves nothing (end of file) ends the loop with the count
    so far. *)
Lemma read_loop_eof f this buffer offset size prior w s :
  script w = Ret 0 :: s → size ≠ 0 →
  FileHandle.read_loop (S f) this buffer offset size prior w
  = Done (C.ssize_t (0 + prior))
      (set_calls (calls w ++ [SysPread (FileHandle.m_fd this) buffer size offset])
         (set_script s w)).
Proof.
  intros Hs Hsz.
  cbn [FileHandle.read_loop]. unfold bind at 1. unfold Posix.pread, bind, Posix.syscall.
  rewrite Hs.
  assert (Hne : (C.size_t 0 =? size) = false) by (apply Z.eqb_neq; cbv; lia).
  rewrite Hne. reflexivity.
Qed.


(** ** Runs of attempts that do not end the loop *)

Lemma read_frame_refl w : read_frame w w.
Proof. repeat split. Qed.

Lemma read_frame_trans w1 w2 w3 : read_frame w1 w2 → read_frame w2 w3 → read_frame w1 w3.
Proof.
  unfold read_frame. intros (?&?&?&?&?&?) (?&?&?&?&?&?).
  repeat split; congruence.
Qed.

(** After a run [l] of short transfers and interruptions that leaves bytes
    to be read, the loop stands [moved l] bytes further, with that many
    bytes of the file in the caller's memory and nothing reported. *)
Lemma read_loop_prefix l :
  Forall progresses l →
  ∀ f this buffer offset size prior w rest,
    script w = l ++ rest →
    moved l < size →
    0 ≤ prior → prior + size ≤ C.SSIZE_MAX →
    0 ≤ offset → offset + size ≤ C.SSIZE_MAX →
    ∃ w',
      FileHandle.read_loop (length l + f) this buffer offset size prior w
      = FileHandle.read_loop f this (buffer + moved l) (offset + moved l)
          (size - moved l) (prior + moved l) w'
      ∧ script w' = rest
      ∧ read_frame w w'
      ∧ (0 ≤ buffer → buffer ≤ Z.of_nat (length (mem w)) →
         offset + moved l ≤ Z.of_nat (length (content w)) →
         mem w' = Posix.splice (mem w) buffer (Posix.slice (content w) offset (moved l))).
Proof.
  induction 1 as [|a l Ha Hl IH]; intros f this buffer offset size prior w rest Hs Hm Hp Hps Ho Hos.
  - exists w. cbn [moved length app] in *. rewrite !Z.add_0_r, Z.sub_0_r.
    split; [done|]. split; [done|]. split; [apply read_frame_refl|].
    intros Hb Hbl _. unfold Posix.slice. cbn [Z.to_nat take].
    symmetry. apply splice_nil. lia.
  - pose proof (moved_nonneg l Hl) as Hnn.
    unfold C.SSIZE_MAX in *.
    destruct a as [v|e]; cbn [moved progresses length app Nat.add] in *.
    + set (w1 := set_mem (Posix.splice (mem w) buffer (Posix.slice (content w) offset v))
                   (set_calls (calls w ++ [SysPread (FileHandle.m_fd this) buffer size offset])
                      (set_script (l ++ rest) w))).
      destruct (IH f this (v + buffer) (offset + v) (size - v) (prior + v) w1 rest)
        as (w' & Hrun & Hscr & Hfr & Hmem); try (cbn; lia); [done|].
      exists w'.
      rewrite (read_loop_short _ _ _ _ _ _ _ v (l ++ rest)) by (unfold C.SIZE_MOD; lia || done).
      unfold C.off_t. rewrite (size_t_small v) by (unfold C.SIZE_MOD; lia).
      rewrite (ssize_t_small (offset + v)) by (unfold C.SSIZE_MAX; lia).
      rewrite !size_t_small by (unfold C.SIZE_MOD; lia).
      fold w1. rewrite Hrun.
      split; [f_equal; lia|]. split; [done|].
      split; [eapply read_frame_trans; [|exact Hfr]; repeat split|].
      intros Hb Hbl Hcl.
      assert (Hlen : length (Posix.slice (content w) offset v) = Z.to_nat v)
        by (apply length_slice; lia).
      rewrite Hmem; cbn [mem content w1 set_mem set_calls set_script]; try lia.
      * replace (v + buffer) with (buffer + Z.of_nat (length (Posix.slice (content w) offset v))) by lia.
        rewrite splice_splice by lia. rewrite slice_app by lia. reflexivity.
      * pose proof (length_splice_ge (mem w) buffer (Posix.slice (content w) offset v)). lia.
    + subst e.
      set (w1 := set_errno Sys.EINTR
                   (set_calls (calls w ++ [SysPread (FileHandle.m_fd this) buffer size offset])
                      (set_script (l ++ rest) w))).
      destruct (IH f this buffer offset size prior w1 rest)
        as (w' & Hrun & Hscr & Hfr & Hmem); try (cbn; lia); [done|].
      exists w'.
      rewrite (read_loop_interrupted _ _ _ _ _ _ _ (l ++ rest)) by (unfold C.SIZE_MOD; lia || done).
      fold w1. rewrite Hrun.
      split; [done|]. split; [done|].
      split; [eapply read_frame_trans; [|exact Hfr]; repeat split|].
      intros Hb Hbl Hcl. apply Hmem; cbn; lia.
Qed.


(** ** The same for the loop of [write] *)

Lemma write_loop_short f this buffer offset size prior w v s :
  script w = Ret v :: s → 1 ≤ v → v < size → size < C.SIZE_MOD →
  FileHandle.write_loop (S f) this buffer offset size prior w
  = FileHandle.write_loop f this (v + buffer) (C.off_t (offset + v))
      (C.size_t (size - C.size_t v)) (C.ssize_t (prior + v))
      (set_content (Posix.splice (content w) offset (Posix.slice (mem w) buffer v))
         (set_calls (calls w ++ [SysPwrite (FileHandle.m_fd this) buffer size offset])
            (set_script s w))).
Proof.
  intros Hs Hv Hlt Hsz.
  cbn [FileHandle.write_loop]. unfold bind at 1. unfold Posix.pwrite, bind, Posix.syscall.
  rewrite Hs.
  assert (Hpos : (0 <? v) = true) by (apply Z.ltb_lt; lia).
  rewrite Hpos.
  rewrite (size_t_small v) by lia.
  assert (Hne : (v =? size) = false) by (apply Z.eqb_neq; lia).
  assert (Hnn : (v <? 0) = false) by (apply Z.ltb_ge; lia).
  rewrite Hne, Hnn. reflexivity.
Qed.

Lemma write_loop_interrupted f this buffer offset size prior w s :
  script w = Err Sys.EINTR :: s → size ≠ C.SIZE_MOD - 1 →
  FileHandle.write_loop (S f) this buffer offset size prior w
  = FileHandle.write_loop f this buffer offset size prior
      (set_errno Sys.EINTR
         (set_calls (calls w ++ [SysPwrite (FileHandle.m_fd this) buffer size offset])
            (set_script s w))).
Proof.
  intros Hs Hsz.
  cbn [FileHandle.write_loop]. unfold bind at 1. unfold Posix.pwrite, bind, Posix.syscall.
  rewrite Hs. unfold Posix.fail.
  rewrite size_t_minus_one.
  assert (Hne : (C.SIZE_MOD - 1 =? size) = false) by (apply Z.eqb_neq; lia).
  rewrite Hne. reflexivity.
Qed.

Lemma write_loop_full f this buffer offset size prior w s :
  script w = Ret size :: s → 0 ≤ size < C.SIZE_MOD →
  FileHandle.write_loop (S f) this buffer offset size prior w
  = Done (C.ssize_t (size + prior))
      (let w1 := set_calls (calls w ++ [SysPwrite (FileHandle.m_fd this) buffer size offset])
                   (set_script s w) in
       if 0 <? size
       then set_content (Posix.splice (content w) offset (Posix.slice (mem w) buffer size)) w1
       else w1).
Proof.
  intros Hs Hsz.
  cbn [FileHandle.write_loop]. unfold bind at 1. unfold Posix.pwrite, bind, Posix.syscall.
  rewrite Hs.
  rewrite (size_t_small size) by lia.
  rewrite Z.eqb_refl. reflexivity.
Qed.

(** An attempt that fails for another reason than a signal ends the loop:
    the error is recorded, and -1 is added to the count so far. *)
Lemma write_loop_error f this buffer offset size prior w e s :
  script w = Err e :: s → e ≠ Sys.EINTR → size ≠ C.SIZE_MOD - 1 →
  FileHandle.write_loop (S f) this buffer offset size prior w
  = Done (C.ssize_t (-1 + prior))
      (set_slots (<[self w := io_error (FileHandle.path this) e]> (slots w))
         (set_notified (notified w ++ [io_error (FileHandle.path this) e])
            (set_errno e
               (set_calls (calls w ++ [SysPwrite (FileHandle.m_fd this) buffer size offset])
                  (set_script s w))))).
Proof.
  intros Hs He Hsz.
  cbn [FileHandle.write_loop]. unfold bind at 1. unfold Posix.pwrite, bind, Posix.syscall.
  rewrite Hs. unfold Posix.fail.
  rewrite size_t_minus_one.
  assert (Hne : (C.SIZE_MOD - 1 =? size) = false) by (apply Z.eqb_neq; lia).
  rewrite Hne.
  assert (Hee : (e =? Sys.EINTR) = false) by (apply Z.eqb_neq; lia).
  cbn. rewrite Hee. reflexivity.
Qed.

Lemma write_frame_refl w : write_frame w w.
Proof. repeat split. Qed.

Lemma write_frame_trans w1 w2 w3 : write_frame w1 w2 → write_frame w2 w3 → write_frame w1 w3.
Proof.
  unfold write_frame. intros (?&?&?&?&?&?) (?&?&?&?&?&?).
  repeat split; congruence.
Qed.

(** After a run [l] of short transfers and interruptions that leaves bytes
    to be written, the loop stands [moved l] bytes further, with that many
    bytes of the caller's memory in the file and nothing reported. *)
Lemma write_loop_prefix l :
  Forall progresses l →
  ∀ f this buffer offset size prior w rest,
    script w = l ++ rest →
    moved l < size →
    0 ≤ prior → prior + size ≤ C.SSIZE_MAX →
    0 ≤ offset → offset + size ≤ C.SSIZE_MAX →
    ∃ w',
      FileHandle.write_loop (length l + f) this buffer offset size prior w
      = FileHandle.write_loop f this (buffer + moved l) (offset + moved l)
          (size - moved l) (prior + moved l) w'
      ∧ script w' = rest
      ∧ write_frame w w'
      ∧ (0 ≤ buffer → buffer + moved l ≤ Z.of_nat (length (mem w)) →
         content w' = if 0 <? moved l
                      then Posix.splice (content w) offset (Posix.slice (mem w) buffer (moved l))
                      else content w).
Proof.
  induction 1 as [|a l Ha Hl IH]; intros f this buffer offset size prior w rest Hs Hm Hp Hps Ho Hos.
  - exists w. cbn [moved length app] in *. rewrite !Z.add_0_r, Z.sub_0_r.
    split; [done|]. split; [done|]. split; [apply write_frame_refl|]. done.
  - pose proof (moved_nonneg l Hl) as Hnn.
    unfold C.SSIZE_MAX in *.
    destruct a as [v|e]; cbn [moved progresses length app Nat.add] in *.
    + set (w1 := set_content (Posix.splice (content w) offset (Posix.slice (mem w) buffer v))
                   (set_calls (calls w ++ [SysPwrite (FileHandle.m_fd this) buffer size offset])
                      (set_script (l ++ rest) w))).
      destruct (IH f this (v + buffer) (offset + v) (size - v) (prior + v) w1 rest)
        as (w' & Hrun & Hscr & Hfr & Hdata); try (cbn; lia); [done|].
      exists w'.
      rewrite (write_loop_short _ _ _ _ _ _ _ v (l ++ rest)) by (unfold C.SIZE_MOD; lia || done).
      unfold C.off_t. rewrite (size_t_small v) by (unfold C.SIZE_MOD; lia).
      rewrite !ssize_t_small by (unfold C.SSIZE_MAX; lia).
      rewrite !size_t_small by (unfold C.SIZE_MOD; lia).
      fold w1. rewrite Hrun.
      split; [f_equal; lia|]. split; [done|].
      split; [eapply write_frame_trans; [|exact Hfr]; repeat split|].
      intros Hb Hbl.
      assert (Hlen : length (Posix.slice (mem w) buffer v) = Z.to_nat v)
        by (apply length_slice; lia).
      assert (Hpos : (0 <? v + moved l) = true) by (apply Z.ltb_lt; lia).
      rewrite Hpos, Hdata; cbn [mem content w1 set_content set_calls set_script]; try lia.
      destruct (Z.ltb_spec 0 (moved l)) as [Hml|Hml].
      * replace (offset + v) with (offset + Z.of_nat (length (Posix.slice (mem w) buffer v))) by lia.
        rewrite splice_splice by lia.
        replace (v + buffer) with (buffer + v) by lia.
        rewrite slice_app by lia. reflexivity.
      * replace (moved l) with 0 by lia. rewrite Z.add_0_r. reflexivity.
    + subst e.
      set (w1 := set_errno Sys.EINTR
                   (set_calls (calls w ++ [SysPwrite (FileHandle.m_fd this) buffer size offset])
                      (set_script (l ++ rest) w))).
      destruct (IH f this buffer offset size prior w1 rest)
        as (w' & Hrun & Hscr & Hfr & Hdata); try (cbn; lia); [done|].
      exists w'.
      rewrite (write_loop_interrupted _ _ _ _ _ _ _ (l ++ rest)) by (unfold C.SIZE_MOD; lia || done).
      fold w1. rewrite Hrun.
      split; [done|]. split; [done|].
      split; [eapply write_frame_trans; [|exact Hfr]; repeat split|].
      intros Hb Hbl. apply Hdata; cbn; lia.
Qed.


(** ** Fuel *)

(** Every turn of the loops takes one answer off the script, so fuel above
    the length of the script is never used up: any two such amounts give
    the same run. *)
Lemma read_loop_fuel f1 :
  ∀ f2 this buffer offset size prior w,
    (length (script w) < f1)%nat → (length (script w) < f2)%nat →
    FileHandle.read_loop f1 this buffer offset size prior w
    = FileHandle.read_loop f2 this buffer offset size prior w.
Proof.
  induction f1 as [|f1 IH]; intros f2 this buffer offset size prior w H1 H2; [lia|].
  destruct f2 as [|f2]; [lia|].
  cbn [FileHandle.read_loop]. unfold bind at 1 3. unfold Posix.pread, bind, Posix.syscall.
  destruct (script w) as [|a s] eqn:Hs; [reflexivity|].
  cbn [length] in H1, H2.
  destruct a as [v|e]; cbn -[C.size_t C.ssize_t C.off_t Z.ltb Z.eqb];
    repeat match goal with
           | |- context [if ?c then _ else _] => destruct c eqn:?
           end;
    try reflexivity; apply IH; cbn; lia.
Qed.

Lemma write_loop_fuel f1 :
  ∀ f2 this buffer offset size prior w,
    (length (script w) < f1)%nat → (length (script w) < f2)%nat →
    FileHandle.write_loop f1 this buffer offset size prior w
    = FileHandle.write_loop f2 this buffer offset size prior w.
Proof.
  induction f1 as [|f1 IH]; intros f2 this buffer offset size prior w H1 H2; [lia|].
  destruct f2 as [|f2]; [lia|].
  cbn [FileHandle.write_loop]. unfold bind at 1 3. unfold Posix.pwrite, bind, Posix.syscall.
  destruct (script w) as [|a s] eqn:Hs; [reflexivity|].
  cbn [length] in H1, H2.
  destruct a as [v|e]; cbn -[C.size_t C.ssize_t C.off_t Z.ltb Z.eqb];
    repeat match goal with
           | |- context [if ?c then _ else _] => destruct c eqn:?
           end;
    try reflexivity; apply IH; cbn; lia.
Qed.

(** ** Whole calls *)

Lemma WCTInnerAssert_true : WCTInnerAssert true = ret ().
Proof. unfold WCTInnerAssert. cbn [negb]. rewrite andb_false_r. reflexivity. Qed.

Lemma opened_fd_eqb this : FileHandle.m_fd this ≠ -1 → (FileHandle.m_fd this =? -1) = false.
Proof. intros H. apply Z.eqb_neq, H. Qed.

Lemma slice_splice dst pos src :
  0 ≤ pos → Posix.slice (Posix.splice dst pos src) pos (Z.of_nat (length src)) = src.
Proof.
  intros Hp. unfold Posix.slice, Posix.splice.
  rewrite (assoc_L (++) (take _ dst)).
  rewrite drop_app_length'
    by (rewrite length_app, length_take, length_replicate; lia).
  rewrite Nat2Z.id. apply take_app_length.
Qed.

(** A read whose attempts are short transfers and interruptions, and whose
    last attempt moves the bytes still missing, returns [size] with the
    bytes of the file in place and nothing reported. *)
Lemma read_transfers_all l rest this buffer offset size w :
  FileHandle.m_fd this ≠ -1 →
  Forall progresses l → moved l < size →
  script w = l ++ Ret (size - moved l) :: rest →
  0 ≤ offset → offset + size ≤ C.SSIZE_MAX →
  0 ≤ buffer → buffer + size ≤ Z.of_nat (length (mem w)) →
  offset + size ≤ Z.of_nat (length (content w)) →
  ∃ w', FileHandle.read this buffer offset size w = Done size w'
        ∧ script w' = rest
        ∧ read_frame w w'
        ∧ mem w' = Posix.splice (mem w) buffer (Posix.slice (content w) offset size).
Proof.
  intros Hfd Hl Hm Hs Ho Hos Hb Hbs Hcs.
  pose proof (moved_nonneg l Hl) as Hnn.
  unfold FileHandle.read. rewrite (opened_fd_eqb _ Hfd). cbn [negb].
  rewrite WCTInnerAssert_true. unfold bind at 1, ret at 1.
  rewrite Hs, length_app. cbn [length].
  replace (S (length l + S (length rest)))%nat with (length l + S (S (length rest)))%nat by lia.
  destruct (read_loop_prefix l Hl (S (S (length rest))) this buffer offset size 0 w
              (Ret (size - moved l) :: rest))
    as (w1 & Hrun & Hscr & Hfr & Hmem); try lia; [done|].
  rewrite Hrun.
  rewrite (read_loop_full _ _ _ _ _ _ _ rest) by (unfold C.SIZE_MOD, C.SSIZE_MAX in *; lia || done).
  assert (Hpos : (0 <? size - moved l) = true) by (apply Z.ltb_lt; lia).
  rewrite Hpos.
  rewrite ssize_t_small by (unfold C.SSIZE_MAX in *; lia).
  replace (size - moved l + (0 + moved l)) with size by lia.
  eexists. split; [reflexivity|].
  split; [reflexivity|].
  split; [eapply read_frame_trans; [exact Hfr|]; repeat split|].
  cbn [mem set_mem].
  destruct Hfr as (_ & _ & _ & Hc & _). rewrite Hc, Hmem by lia.
  assert (Hlen : length (Posix.slice (content w) offset (moved l)) = Z.to_nat (moved l))
    by (apply length_slice; lia).
  replace (buffer + moved l)
    with (buffer + Z.of_nat (length (Posix.slice (content w) offset (moved l)))) by lia.
  rewrite splice_splice by lia. rewrite slice_app by lia.
  f_equal. f_equal. lia.
Qed.

(** The same for a write. *)
Lemma write_transfers_all l rest this buffer offset size w :
  FileHandle.m_fd this ≠ -1 →
  Forall progresses l → moved l < size →
  script w = l ++ Ret (size - moved l) :: rest →
  0 ≤ offset → offset + size ≤ C.SSIZE_MAX →
  0 ≤ buffer → buffer + size ≤ Z.of_nat (length (mem w)) →
  ∃ w', FileHandle.write this buffer offset size w = Done size w'
        ∧ script w' = rest
        ∧ write_frame w w'
        ∧ content w' = Posix.splice (content w) offset (Posix.slice (mem w) buffer size).
Proof.
  intros Hfd Hl Hm Hs Ho Hos Hb Hbs.
  pose proof (moved_nonneg l Hl) as Hnn.
  unfold FileHandle.write. rewrite (opened_fd_eqb _ Hfd). cbn [negb].
  rewrite WCTInnerAssert_true. unfold bind at 1, ret at 1.
  rewrite Hs, length_app. cbn [length].
  replace (S (length l + S (length rest)))%nat with (length l + S (S (length rest)))%nat by lia.
  destruct (write_loop_prefix l Hl (S (S (length rest))) this buffer offset size 0 w
              (Ret (size - moved l) :: rest))
    as (w1 & Hrun & Hscr & Hfr & Hdata); try lia; [done|].
  rewrite Hrun.
  rewrite (write_loop_full _ _ _ _ _ _ _ rest) by (unfold C.SIZE_MOD, C.SSIZE_MAX in *; lia || done).
  assert (Hpos : (0 <? size - moved l) = true) by (apply Z.ltb_lt; lia).
  rewrite Hpos.
  rewrite ssize_t_small by (unfold C.SSIZE_MAX in *; lia).
  replace (size - moved l + (0 + moved l)) with size by lia.
  eexists. split; [reflexivity|].
  split; [reflexivity|].
  split; [eapply write_frame_trans; [exact Hfr|]; repeat split|].
  cbn [content set_content].
  destruct Hfr as (_ & _ & _ & Hmm & _). rewrite Hmm, Hdata by lia.
  destruct (Z.ltb_spec 0 (moved l)) as [Hml|Hml].
  - assert (Hlen : length (Posix.slice (mem w) buffer (moved l)) = Z.to_nat (moved l))
      by (apply length_slice; lia).
    replace (offset + moved l)
      with (offset + Z.of_nat (length (Posix.slice (mem w) buffer (moved l)))) by lia.
    rewrite splice_splice by lia. rewrite slice_app by lia.
    f_equal. f_equal. lia.
  - replace (moved l) with 0 by lia. rewrite !Z.add_0_r, Z.sub_0_r. reflexivity.
Qed.

(** A read whose attempts are short transfers and interruptions until one
    fails for another reason than a signal. *)
Lemma read_fails l e rest this buffer offset size w :
  FileHandle.m_fd this ≠ -1 →
  Forall progresses l → moved l < size → e ≠ Sys.EINTR →
  script w = l ++ Err e :: rest →
  0 ≤ offset → offset + size ≤ C.SSIZE_MAX →
  ∃ w', FileHandle.read this buffer offset size w = Done (-1) w'
        ∧ script w' = rest
        ∧ notified w' = notified w ++ [io_error (FileHandle.path this) e]
        ∧ slots w' = <[self w := io_error (FileHandle.path this) e]> (slots w)
        ∧ (0 ≤ buffer → buffer ≤ Z.of_nat (length (mem w)) →
           offset + moved l ≤ Z.of_nat (length (content w)) →
           mem w' = Posix.splice (mem w) buffer (Posix.slice (content w) offset (moved l))).
Proof.
  intros Hfd Hl Hm He Hs Ho Hos.
  pose proof (moved_nonneg l Hl) as Hnn.
  unfold FileHandle.read. rewrite (opened_fd_eqb _ Hfd). cbn [negb].
  rewrite WCTInnerAssert_true. unfold bind at 1, ret at 1.
  rewrite Hs, length_app. cbn [length].
  replace (S (length l + S (length rest)))%nat with (length l + S (S (length rest)))%nat by lia.
  destruct (read_loop_prefix l Hl (S (S (length rest))) this buffer offset size 0 w
              (Err e :: rest))
    as (w1 & Hrun & Hscr & Hfr & Hmem); try lia; [done|].
  rewrite Hrun.
  rewrite (read_loop_error _ _ _ _ _ _ _ e rest) by (unfold C.SIZE_MOD, C.SSIZE_MAX in *; lia || done).
  destruct Hfr as (Hn & Hsl & Hself & _).
  eexists. split; [reflexivity|]. cbn. rewrite Hn, Hsl, Hself. done.
Qed.

(** The same for a write: what comes back is the count so far less one. *)
Lemma write_fails l e rest this buffer offset size w :
  FileHandle.m_fd this ≠ -1 →
  Forall progresses l → moved l < size → e ≠ Sys.EINTR →
  script w = l ++ Err e :: rest →
  0 ≤ offset → offset + size ≤ C.SSIZE_MAX →
  ∃ w', FileHandle.write this buffer offset size w = Done (moved l - 1) w'
        ∧ script w' = rest
        ∧ notified w' = notified w ++ [io_error (FileHandle.path this) e]
        ∧ slots w' = <[self w := io_error (FileHandle.path this) e]> (slots w).
Proof.
  intros Hfd Hl Hm He Hs Ho Hos.
  pose proof (moved_nonneg l Hl) as Hnn.
  unfold FileHandle.write. rewrite (opened_fd_eqb _ Hfd). cbn [negb].
  rewrite WCTInnerAssert_true. unfold bind at 1, ret at 1.
  rewrite Hs, length_app. cbn [length].
  replace (S (length l + S (length rest)))%nat with (length l + S (S (length rest)))%nat by lia.
  destruct (write_loop_prefix l Hl (S (S (length rest))) this buffer offset size 0 w
              (Err e :: rest))
    as (w1 & Hrun & Hscr & Hfr & _); try lia; [done|].
  rewrite Hrun.
  rewrite (write_loop_error _ _ _ _ _ _ _ e rest) by (unfold C.SIZE_MOD, C.SSIZE_MAX in *; lia || done).
  destruct Hfr as (Hn & Hsl & Hself & _).
  rewrite ssize_t_small by (unfold C.SSIZE_MAX in *; lia).
  replace (-1 + (0 + moved l)) with (moved l - 1) by lia.
  eexists. split; [reflexivity|]. cbn. rewrite Hn, Hsl, Hself. done.
Qed.

End Loops.

(** ** Lifecycle *)

Section Lifecycle.

Context {P : Platform}.

(** The move constructor hands over descriptor and mode and resets its
    argument. *)
Lemma move_construct_transfers other :
  FileHandle.move_construct other
  = (FileHandle.mk (FileHandle.path other) (FileHandle.m_fd other) (FileHandle.m_mode other),
     FileHandle.mk (FileHandle.path other) (-1) Mode.None).
Proof. reflexivity. Qed.

(** Move assignment between handles on one path hands over the descriptor
    only: both mode fields stay as they were. *)
Lemma move_assign_same_path this other w :
  FileHandle.path this = FileHandle.path other →
  FileHandle.move_assign this other w
  = Done (FileHandle.mk (FileHandle.path this) (FileHandle.m_fd other) (FileHandle.m_mode this),
          FileHandle.mk (FileHandle.path other) (-1) (FileHandle.m_mode other)) w.
Proof.
  intros Hp. unfold FileHandle.move_assign.
  rewrite bool_decide_eq_true_2 by done.
  rewrite WCTInnerAssert_true. reflexivity.
Qed.

(** What [setThreadedError] does: one [Error] built from [errno] and the
    path, sent to the notifier and stored in the calling thread's slot. *)
Lemma setThreadedError_records this w :
  FileHandle.setThreadedError this w
  = Done ()
      (set_slots (<[self w := io_error (FileHandle.path this) (errno w)]> (slots w))
         (set_notified (notified w ++ [io_error (FileHandle.path this) (errno w)]) w)).
Proof. reflexivity. Qed.

Lemma io_error_fields path e :
  Error.code (io_error path e) = Error.IOError
  ∧ Error.systemCode (io_error path e) = Some e
  ∧ Error.message (io_error path e) = strerror e
  ∧ Error.infos (io_error path e) !! "Path" = Some path.
Proof.
  split; [reflexivity|]. split; [reflexivity|]. split; [reflexivity|].
  cbn [io_error Error.infos]. apply lookup_singleton_eq.
Qed.

(** The flags and permission bits of the first [::open] of
    [FileHandle::open]. *)
Lemma overwrite_flags :
  Z.lor (Z.lor Sys.O_CREAT Sys.O_WRONLY) Sys.O_TRUNC = 577
  ∧ Z.lor (Z.lor Sys.S_IRWXU Sys.S_IRGRP) Sys.S_IROTH = 484.
Proof. split; reflexivity. Qed.

(** On a closed handle, [open] in either mode enters the kernel twice: with
    the flags of the mode, then with flags 0; the descriptor kept is the one
    of the second call, and the mode field is not written. *)
Lemma open_closed_enters_twice mode this a1 a2 rest w :
  FileHandle.m_fd this = -1 → mode ≠ Mode.None →
  script w = a1 :: a2 :: rest →
  ∃ ok fd w',
    FileHandle.open mode this w
    = Done (ok, FileHandle.mk (FileHandle.path this) fd (FileHandle.m_mode this)) w'
    ∧ fd = match a2 with Ret v => v | Err _ => -1 end
    ∧ ok = negb (fd =? -1)
    ∧ script w' = rest
    ∧ calls w' = calls w
        ++ [match mode with
            | Mode.OverWrite => SysOpen (FileHandle.path this) 577 (Some 484)
            | _ => SysOpen (FileHandle.path this) Sys.O_RDONLY Datatypes.None
            end;
            SysOpen (FileHandle.path this) 0 Datatypes.None].
Proof.
  intros Hfd Hmode Hs.
  unfold FileHandle.open, FileHandle.isOpened. rewrite Hfd, Z.eqb_refl.
  destruct mode; [done| |];
    cbn [Mode.eqb negb]; rewrite WCTInnerAssert_true;
    unfold WCTRemedialAssert;
    unfold bind, ret, Posix.open, Posix.syscall, bind; cbv beta; rewrite Hs;
    change (Z.lor (Z.lor Sys.O_CREAT Sys.O_WRONLY) Sys.O_TRUNC) with 577;
    change (Z.lor (Z.lor Sys.S_IRWXU Sys.S_IRGRP) Sys.S_IROTH) with 484;
    change (Z.land 577 Sys.O_TRUNC =? 0) with false;
    change (Z.land Sys.O_RDONLY Sys.O_TRUNC =? 0) with true;
    change (Z.land 0 Sys.O_TRUNC =? 0) with true;
    destruct a1 as [v1|e1], a2 as [v2|e2]; cbn;
    repeat match goal with
           | |- context [?v =? -1] => destruct (v =? -1) eqn:?
           end;
    cbn; do 3 eexists; (split; [reflexivity|]);
    cbn; rewrite <- ?(assoc_L (++)); cbn;
    repeat split; try done;
    match goal with H : (_ =? -1) = _ |- _ => rewrite H; reflexivity end.
Qed.

(** When the second [::open] fails, [open] returns false on a closed handle
    and records one [Error] for that failure, whatever the first did. *)
Lemma open_closed_second_fails mode this a1 e rest w :
  FileHandle.m_fd this = -1 → mode ≠ Mode.None →
  script w = a1 :: Err e :: rest →
  ∃ w',
    FileHandle.open mode this w = Done (false, this) w'
    ∧ notified w' = notified w ++ [io_error (FileHandle.path this) e]
    ∧ slots w' = <[self w := io_error (FileHandle.path this) e]> (slots w).
Proof.
  intros Hfd Hmode Hs.
  unfold FileHandle.open, FileHandle.isOpened. rewrite Hfd, Z.eqb_refl.
  destruct this as [p fd m]. cbn [FileHandle.m_fd] in Hfd. subst fd.
  destruct mode; [done| |];
    cbn [Mode.eqb negb]; rewrite WCTInnerAssert_true;
    unfold WCTRemedialAssert;
    unfold bind, ret, Posix.open, Posix.syscall, bind; cbv beta; rewrite Hs;
    change (Z.land (Z.lor (Z.lor Sys.O_CREAT Sys.O_WRONLY) Sys.O_TRUNC) Sys.O_TRUNC =? 0)
      with false;
    change (Z.land Sys.O_RDONLY Sys.O_TRUNC =? 0) with true;
    destruct a1 as [v1|e1]; cbn;
    eexists; (split; [reflexivity|]); cbn; done.
Qed.

(** [close] on an open handle releases its descriptor with one [::close]
    and leaves the handle closed. *)
Lemma close_opened this a rest w :
  FileHandle.m_fd this ≠ -1 →
  script w = a :: rest →
  ∃ w',
    FileHandle.close this w = Done (FileHandle.set_fd (-1) this) w'
    ∧ script w' = rest
    ∧ calls w' = calls w ++ [SysClose (FileHandle.m_fd this)].
Proof.
  intros Hfd Hs.
  unfold FileHandle.close, FileHandle.isOpened.
  rewrite (opened_fd_eqb _ Hfd). cbn [negb].
  rewrite WCTInnerAssert_true.
  unfold bind, ret, Posix.close, Posix.syscall, bind. cbv beta. rewrite Hs.
  destruct a as [v|e]; cbn; eexists; (split; [reflexivity|]); done.
Qed.

End Lifecycle.

(** * The claims *)

Section Claims.

Context {P : Platform}.

(** C2 (amended): for every open handle, when [read(buffer, offset, size)]
    hits an error other than an interruption on an underlying positioned
    read, after any run of short transfers and interruptions, it builds one
    [Error], publishes it to the notifier and stores it in the calling
    thread's slot, and returns -1: the bytes moved before the failing
    attempt are in the caller's memory, but their count is reset and not
    returned. *)
Theorem read_error_returns_minus_one l e rest this buffer offset size w :
  FileHandle.m_fd this ≠ -1 →
  Forall progresses l → moved l < size → e ≠ Sys.EINTR →
  script w = l ++ Err e :: rest →
  0 ≤ offset → offset + size ≤ C.SSIZE_MAX →
  0 ≤ buffer → buffer + size ≤ Z.of_nat (length (mem w)) →
  offset + moved l ≤ Z.of_nat (length (content w)) →
  ∃ w', FileHandle.read this buffer offset size w = Done (-1) w'
        ∧ notified w' = notified w ++ [io_error (FileHandle.path this) e]
        ∧ slots w' = <[self w := io_error (FileHandle.path this) e]> (slots w)
        ∧ mem w' = Posix.splice (mem w) buffer (Posix.slice (content w) offset (moved l)).
Proof.
  intros Hfd Hl Hm He Hs Ho Hos Hb Hbs Hcs.
  pose proof (moved_nonneg l Hl) as Hnn.
  destruct (read_fails l e rest this buffer offset size w) as (w' & Hr & _ & Hn & Hsl & Hmem);
    try done.
  exists w'. repeat split; try done. apply Hmem; lia.
Qed.

(** C6 (amended): for every open handle whose descriptor is live, [size()]
    returns the current length of the file in bytes by one
    [lseek(fd, 0, SEEK_END)]; the result does not depend on where the
    cursor of the descriptor stood, but the call leaves that cursor at the
    end of the file.  Nothing else changes and nothing is reported. *)
Theorem size_seeks_to_end this w v rest cursor :
  FileHandle.m_fd this ≠ -1 →
  script w = Ret v :: rest →
  fdtable w !! FileHandle.m_fd this = Some cursor →
  Z.of_nat (length (content w)) ≤ C.SSIZE_MAX →
  ∃ w', FileHandle.size this w = Done (Z.of_nat (length (content w))) w'
        ∧ calls w' = calls w ++ [SysLseek (FileHandle.m_fd this) 0 Sys.SEEK_END]
        ∧ fdtable w' = <[FileHandle.m_fd this := Z.of_nat (length (content w))]> (fdtable w)
        ∧ content w' = content w ∧ mem w' = mem w
        ∧ notified w' = notified w ∧ slots w' = slots w.
Proof.
  intros Hfd Hs Hc Hlen.
  unfold FileHandle.size. rewrite (opened_fd_eqb _ Hfd). cbn [negb].
  rewrite WCTInnerAssert_true.
  unfold bind, ret, Posix.lseek, Posix.syscall, bind. cbv beta. rewrite Hs.
  change (Sys.SEEK_END =? Sys.SEEK_SET) with false.
  change (Sys.SEEK_END =? Sys.SEEK_CUR) with false.
  change (Sys.SEEK_END =? Sys.SEEK_END) with true.
  cbv iota beta zeta. cbn [content fdtable set_calls set_script]. rewrite Z.add_0_r.
  rewrite ssize_t_small by (unfold C.SSIZE_MAX in *; lia).
  eexists. split; [reflexivity|]. cbn.
  repeat split.
  apply map_eq. intros fd.
  destruct (decide (fd = FileHandle.m_fd this)) as [->|Hne].
  - rewrite lookup_alter_eq, lookup_insert_eq, Hc. reflexivity.
  - rewrite lookup_alter_ne, lookup_insert_ne by done. reflexivity.
Qed.

(** C7: for every open handle and every read or write call in which one
    attempt is interrupted by a signal and every other attempt moves at
    least one byte, [pre] before the interruption and [post] after it, the
    call returns the full [size], the bytes asked for are in place (the
    file's bytes in the caller's buffer for a read, the buffer's bytes in
    the file for a write), nothing is published or stored as an error, and
    the count is the sum of the bytes moved by the attempts. *)
Theorem interrupted_once_transfers_all this buffer offset size pre post rest w :
  FileHandle.m_fd this ≠ -1 →
  Forall (λ v, 1 ≤ v) pre → Forall (λ v, 1 ≤ v) post → post ≠ [] →
  foldr Z.add 0 pre + foldr Z.add 0 post = size →
  script w = (Ret <$> pre) ++ Err Sys.EINTR :: (Ret <$> post) ++ rest →
  0 ≤ offset → offset + size ≤ C.SSIZE_MAX →
  0 ≤ buffer → buffer + size ≤ Z.of_nat (length (mem w)) →
  (offset + size ≤ Z.of_nat (length (content w)) →
   ∃ w', FileHandle.read this buffer offset size w = Done size w'
         ∧ Posix.slice (mem w') buffer size = Posix.slice (content w) offset size
         ∧ mem w' = Posix.splice (mem w) buffer (Posix.slice (content w) offset size)
         ∧ content w' = content w
         ∧ notified w' = notified w ∧ slots w' = slots w
         ∧ script w' = rest)
  ∧ (∃ w', FileHandle.write this buffer offset size w = Done size w'
           ∧ Posix.slice (content w') offset size = Posix.slice (mem w) buffer size
           ∧ content w' = Posix.splice (content w) offset (Posix.slice (mem w) buffer size)
           ∧ mem w' = mem w
           ∧ notified w' = notified w ∧ slots w' = slots w
           ∧ script w' = rest).
Proof.
  intros Hfd Hpre Hpost Hne Hsum Hs Ho Hos Hb Hbs.
  destruct post as [|vlast post' _] using rev_ind; [done|]. clear Hne.
  apply Forall_app in Hpost as [Hpost' Hlast].
  rewrite Forall_singleton in Hlast.
  set (l := (Ret <$> pre) ++ Err Sys.EINTR :: (Ret <$> post')).
  assert (Hl : Forall progresses l).
  { unfold l. apply Forall_app. split; [apply progresses_map_Ret, Hpre|].
    constructor; [reflexivity|]. apply progresses_map_Ret, Hpost'. }
  assert (Hml : moved l = size - vlast).
  { unfold l. rewrite moved_app. cbn [moved]. rewrite !moved_map_Ret.
    rewrite <- (moved_map_Ret (post' ++ [vlast])), fmap_app, moved_app in Hsum.
    rewrite moved_map_Ret in Hsum. cbn [fmap list_fmap moved] in Hsum.
    lia. }
  assert (Hscript : script w = l ++ Ret (size - moved l) :: rest).
  { rewrite Hml, Hs. unfold l. rewrite fmap_app. cbn [fmap list_fmap].
    replace (size - (size - vlast)) with vlast by lia.
    rewrite <- !(assoc_L (++)). cbn [app]. reflexivity. }
  pose proof (moved_nonneg l Hl) as Hnn.
  split.
  - intros Hcs.
    destruct (read_transfers_all l rest this buffer offset size w)
      as (w' & Hr & Hscr & (Hn & Hsl & _ & Hc & _) & Hmem); try done; [lia|].
    exists w'. repeat split; try done.
    rewrite Hmem.
    assert (Hlen : length (Posix.slice (content w) offset size) = Z.to_nat size)
      by (apply length_slice; lia).
    replace size with (Z.of_nat (length (Posix.slice (content w) offset size))) at 2 by lia.
    apply slice_splice. lia.
  - destruct (write_transfers_all l rest this buffer offset size w)
      as (w' & Hr & Hscr & (Hn & Hsl & _ & Hmm & _) & Hdata); try done; [lia|].
    exists w'. repeat split; try done.
    rewrite Hdata.
    assert (Hlen : length (Posix.slice (mem w) buffer size) = Z.to_nat size)
      by (apply length_slice; lia).
    replace size with (Z.of_nat (length (Posix.slice (mem w) buffer size))) at 2 by lia.
    apply slice_splice. lia.
Qed.

(** C9 (amended): on a handle that is already closed, [close()] issues no
    system call and changes neither the handle nor anything around it.
    Where inner assertions are compiled out it returns, a no-op; where they
    are compiled in, [WCTInnerAssert(isOpened())] stops the call. *)
Theorem close_closed_handle this w :
  FileHandle.m_fd this = -1 →
  FileHandle.close this w = if inner_assertions then Abort w else Done this w.
Proof.
  intros Hfd. unfold FileHandle.close, FileHandle.isOpened, WCTInnerAssert.
  rewrite Hfd, Z.eqb_refl. cbn [negb].
  destruct inner_assertions; reflexivity.
Qed.

(** C10 (amended): on a handle that is already open, [open(mode)] with
    [ReadOnly] or [OverWrite] (and with [Mode::None] where inner assertions
    are compiled out) returns true; the handle keeps its descriptor and
    mode, no system call is issued and no descriptor acquired; the failed
    assertion's message is all that is reported.  With [Mode::None] where
    inner assertions are compiled in, [WCTInnerAssert(mode != Mode::None)]
    stops the call before anything else happens. *)
Theorem open_opened_returns_true mode this w :
  FileHandle.m_fd this ≠ -1 →
  FileHandle.open mode this w
  = if inner_assertions && Mode.eqb mode Mode.None
    then Abort w
    else Done (true, this) (set_fatals (fatals w ++ ["File already is opened"]) w).
Proof.
  intros Hfd.
  unfold FileHandle.open, FileHandle.isOpened, WCTInnerAssert.
  rewrite (opened_fd_eqb _ Hfd), negb_involutive. cbn [negb].
  destruct (inner_assertions && Mode.eqb mode Mode.None); reflexivity.
Qed.

End Claims.

(** * Concrete runs *)

(** C1 (failing input): [open(OverWrite)] on a closed handle, the kernel
    handing out descriptors 3 and 4.  The call enters the kernel twice,
    first with create, write-only, truncate and permission bits 0744, then
    with flags 0; the handle keeps descriptor 4, and descriptor 3 stays live
    in the table with nobody holding it. *)
Theorem open_overwrite_acquires_twice :
  let after := FileHandle.open (P:=release_build) Mode.OverWrite
                 (FileHandle.new "a.db") (fresh [Ret 3; Ret 4] [] []) in
  returned after = Some (true, FileHandle.mk "a.db" 4 Mode.None)
  ∧ calls <$> world_after after
    = Some [SysOpen "a.db" 577 (Some 484); SysOpen "a.db" 0 Datatypes.None]
  ∧ fdtable <$> world_after after = Some {[ 3 := 0; 4 := 0 ]}.
Proof. vm_compute. repeat split. Qed.

(** C2 (counterexample): a read of 5 bytes whose first attempt moves 2
    bytes and whose second attempt fails with EIO.  Two bytes are in the
    caller's buffer and one error is published, but the call returns -1,
    not 2. *)
Lemma read_error_discards_count :
  let after := FileHandle.read (P:=release_build) opened3 0 0 5
                 (fresh [Ret 2; Err 5] hello zeros5) in
  returned after = Some (-1)
  ∧ moved [Ret 2] = 2
  ∧ mem <$> world_after after = Some [x68; x65; x00; x00; x00]
  ∧ notified <$> world_after after = Some [io_error (P:=release_build) "a.db" 5].
Proof. vm_compute. repeat split. Qed.

(** C3 (failing input): a write of 5 bytes whose first attempt moves 2
    bytes and whose second attempt fails with EIO.  Two bytes are in the
    file and one error is published, but the call returns 1: the -1 of the
    failing attempt added to the count. *)
Theorem write_error_returns_count_less_one :
  let after := FileHandle.write (P:=release_build) opened3 0 0 5
                 (fresh [Ret 2; Err 5] [] hello) in
  returned after = Some 1
  ∧ moved [Ret 2] = 2
  ∧ content <$> world_after after = Some [x68; x65]
  ∧ notified <$> world_after after = Some [io_error (P:=release_build) "a.db" 5].
Proof. vm_compute. repeat split. Qed.

(** C4 (failing input): [open(ReadOnly)] on a closed handle succeeds, the
    handle holds a descriptor, and its mode field is still [None]. *)
Theorem open_leaves_mode_unset :
  let after := FileHandle.open (P:=release_build) Mode.ReadOnly
                 (FileHandle.new "a.db") (fresh [Ret 3; Ret 4] [] []) in
  fst <$> returned after = Some true
  ∧ FileHandle.m_fd ∘ snd <$> returned after = Some 4
  ∧ FileHandle.m_mode ∘ snd <$> returned after = Some Mode.None.
Proof. vm_compute. repeat split. Qed.


(** C6 (counterexample): [size()] on a handle whose descriptor has its
    cursor at 0, over a file of 5 bytes.  The call is a seek to the end of
    the file, and the cursor stands at 5 afterwards. *)
Lemma size_moves_cursor :
  let before := with_fd3 [Ret 0] in
  let after := FileHandle.size (P:=release_build) opened3 before in
  returned after = Some 5
  ∧ calls <$> world_after after = Some [SysLseek 3 0 Sys.SEEK_END]
  ∧ fdtable before !! 3 = Some 0
  ∧ (world_after after ≫= λ w, fdtable w !! 3) = Some 5.
Proof. vm_compute. repeat split. Qed.

(** C8 (failing input): [open(OverWrite)] on a closed handle, the first
    [::open] failing with EACCES and the second succeeding with descriptor
    3.  The call returns true; no [Error] is published or stored for the
    failed system call. *)
Theorem open_drops_first_failure :
  let after := FileHandle.open (P:=release_build) Mode.OverWrite
                 (FileHandle.new "a.db") (fresh [Err 13; Ret 3] [] []) in
  returned after = Some (true, FileHandle.mk "a.db" 3 Mode.None)
  ∧ errno <$> world_after after = Some 13
  ∧ notified <$> world_after after = Some []
  ∧ slots <$> world_after after = Some ∅.
Proof. vm_compute. repeat split. Qed.

(** C9 (counterexample): in a development build, [close()] on a handle
    that was never opened is stopped by [WCTInnerAssert(isOpened())]. *)
Lemma close_closed_aborts_in_development :
  FileHandle.close (P:=development_build) (FileHandle.new "a.db") (fresh [] [] [])
  = Abort (fresh [] [] []).
Proof. reflexivity. Qed.

(** C10 (counterexample): in a development build, [open(Mode::None)] on a
    handle that holds descriptor 3 does not return true: it is stopped by
    [WCTInnerAssert(mode != Mode::None)]. *)
Lemma open_none_on_opened_aborts_in_development :
  FileHandle.open (P:=development_build) Mode.None opened3 (with_fd3 [])
  = Abort (with_fd3 []).
Proof. reflexivity. Qed.

(** ** Instances of the theorems *)

Lemma read_error_returns_minus_one_witness :
  ∃ w', FileHandle.read (P:=release_build) opened3 0 0 5 (fresh [Ret 2; Err 5] hello zeros5)
        = Done (-1) w'
        ∧ notified w' = [] ++ [io_error (P:=release_build) "a.db" 5]
        ∧ slots w' = <[0%nat := io_error (P:=release_build) "a.db" 5]> ∅
        ∧ mem w' = Posix.splice zeros5 0 (Posix.slice hello 0 2).
Proof.
  apply (read_error_returns_minus_one (P:=release_build) [Ret 2] 5 [] opened3 0 0 5
           (fresh [Ret 2; Err 5] hello zeros5)).
  - discriminate.
  - constructor; [cbn; lia | constructor].
  - reflexivity.
  - discriminate.
  - reflexivity.
  - lia.
  - vm_compute. discriminate.
  - lia.
  - vm_compute. discriminate.
  - vm_compute. discriminate.
Defined.

Lemma size_seeks_to_end_witness :
  ∃ w', FileHandle.size (P:=release_build) opened3 (with_fd3 [Ret 0]) = Done 5 w'
        ∧ calls w' = [] ++ [SysLseek 3 0 Sys.SEEK_END]
        ∧ fdtable w' = <[3 := 5]> {[ 3 := 0 ]}
        ∧ content w' = hello ∧ mem w' = zeros5
        ∧ notified w' = [] ∧ slots w' = ∅.
Proof.
  apply (size_seeks_to_end (P:=release_build) opened3 (with_fd3 [Ret 0]) 0 [] 0).
  - discriminate.
  - reflexivity.
  - reflexivity.
  - vm_compute. discriminate.
Defined.

Lemma interrupted_once_transfers_all_witness :
  let w := fresh [Ret 2; Err 4; Ret 3] hello payload in
  (5 ≤ Z.of_nat (length hello) →
   ∃ w', FileHandle.read (P:=release_build) opened3 0 0 5 w = Done 5 w'
         ∧ Posix.slice (mem w') 0 5 = Posix.slice hello 0 5
         ∧ mem w' = Posix.splice payload 0 (Posix.slice hello 0 5)
         ∧ content w' = hello
         ∧ notified w' = [] ∧ slots w' = ∅
         ∧ script w' = [])
  ∧ (∃ w', FileHandle.write (P:=release_build) opened3 0 0 5 w = Done 5 w'
           ∧ Posix.slice (content w') 0 5 = Posix.slice payload 0 5
           ∧ content w' = Posix.splice hello 0 (Posix.slice payload 0 5)
           ∧ mem w' = payload
           ∧ notified w' = [] ∧ slots w' = ∅
           ∧ script w' = []).
Proof.
  apply (interrupted_once_transfers_all (P:=release_build) opened3 0 0 5 [2] [3] []
           (fresh [Ret 2; Err 4; Ret 3] hello payload)).
  - discriminate.
  - constructor; [lia | constructor].
  - constructor; [lia | constructor].
  - discriminate.
  - reflexivity.
  - reflexivity.
  - lia.
  - vm_compute. discriminate.
  - lia.
  - vm_compute. discriminate.
Defined.

Lemma close_closed_handle_witness :
  FileHandle.close (P:=release_build) (FileHandle.new "a.db") (fresh [] [] [])
  = Done (FileHandle.new "a.db") (fresh [] [] []).
Proof.
  exact (close_closed_handle (P:=release_build) (FileHandle.new "a.db") (fresh [] [] []) eq_refl).
Defined.

Lemma open_opened_returns_true_witness :
  FileHandle.open (P:=development_build) Mode.OverWrite opened3 (with_fd3 [])
  = Done (true, opened3) (set_fatals ([] ++ ["File already is opened"]) (with_fd3 [])).
Proof.
  apply (open_opened_returns_true (P:=development_build) Mode.OverWrite opened3 (with_fd3 [])).
  discriminate.
Defined.

(** * Further properties of the lifecycle *)

Section LifecycleMore.

Context {P : Platform}.

(** X1: the destructor does nothing, no system call and no report, for a
    handle that is closed or whose mode is not [OverWrite]; a handle still
    open in another mode keeps its descriptor unreleased. *)
Theorem destroy_leaves_alone this w :
  FileHandle.m_fd this = -1 ∨ FileHandle.m_mode this ≠ Mode.OverWrite →
  FileHandle.destroy this w = Done this w.
Proof.
  intros H. unfold FileHandle.destroy, FileHandle.isOpened, WCTRemedialAssert.
  destruct H as [Hfd|Hmode].
  - rewrite Hfd, Z.eqb_refl. reflexivity.
  - destruct (FileHandle.m_mode this); [|done|];
      cbn [Mode.eqb negb]; rewrite orb_true_r; reflexivity.
Qed.

(** X2: the destructor of a handle still open in mode [OverWrite] reports
    "Close should be call manually to sync file." and closes the handle:
    one [::close] of its descriptor, whatever the kernel answers, and the
    handle is left closed. *)
Theorem destroy_closes_overwrite this a rest w :
  FileHandle.m_fd this ≠ -1 →
  FileHandle.m_mode this = Mode.OverWrite →
  script w = a :: rest →
  ∃ w',
    FileHandle.destroy this w = Done (FileHandle.set_fd (-1) this) w'
    ∧ calls w' = calls w ++ [SysClose (FileHandle.m_fd this)]
    ∧ fatals w' = fatals w ++ ["Close should be call manually to sync file."]
    ∧ script w' = rest
    ∧ notified w' = notified w.
Proof.
  intros Hfd Hmode Hs.
  unfold FileHandle.destroy, FileHandle.isOpened, WCTRemedialAssert.
  rewrite (opened_fd_eqb _ Hfd), Hmode. cbn [negb orb Mode.eqb].
  unfold FileHandle.close, FileHandle.isOpened.
  rewrite (opened_fd_eqb _ Hfd). cbn [negb].
  rewrite WCTInnerAssert_true.
  unfold bind, ret, Notifier.fatal, Posix.close, Posix.syscall, bind. cbv beta.
  cbn [script set_fatals]. rewrite Hs.
  destruct a as [v|e]; cbn; eexists; (split; [reflexivity|]); done.
Qed.

(** X3: [open(Mode::None)] on a closed handle never enters the kernel and
    records nothing: it is stopped by [WCTInnerAssert(mode != Mode::None)]
    where inner assertions are compiled in, and returns false with handle
    and world unchanged elsewhere. *)
Theorem open_mode_none this w :
  FileHandle.m_fd this = -1 →
  FileHandle.open Mode.None this w
  = if inner_assertions then Abort w else Done (false, this) w.
Proof.
  intros Hfd.
  unfold FileHandle.open, FileHandle.isOpened, WCTInnerAssert, WCTRemedialAssert.
  rewrite Hfd, Z.eqb_refl. cbn [Mode.eqb negb].
  destruct inner_assertions; reflexivity.
Qed.

(** X4: [close()] on an open handle enters the kernel once, with the
    descriptor the handle holds, and leaves the handle closed whatever the
    kernel answers; a failing [::close] is not reported: nothing is
    published or stored, only [errno] shows it. *)
Theorem close_ignores_answer this a rest w :
  FileHandle.m_fd this ≠ -1 →
  script w = a :: rest →
  ∃ w',
    FileHandle.close this w = Done (FileHandle.set_fd (-1) this) w'
    ∧ FileHandle.isOpened (FileHandle.set_fd (-1) this) = false
    ∧ calls w' = calls w ++ [SysClose (FileHandle.m_fd this)]
    ∧ notified w' = notified w ∧ slots w' = slots w
    ∧ errno w' = match a with Ret _ => errno w | Err e => e end
    ∧ fdtable w' = match a with
                   | Ret _ => delete (FileHandle.m_fd this) (fdtable w)
                   | Err _ => fdtable w
                   end.
Proof.
  intros Hfd Hs.
  unfold FileHandle.close, FileHandle.isOpened.
  rewrite (opened_fd_eqb _ Hfd). cbn [negb].
  rewrite WCTInnerAssert_true.
  unfold bind, ret, Posix.close, Posix.syscall, bind. cbv beta. rewrite Hs.
  destruct a as [v|e]; cbn; eexists; (split; [reflexivity|]); done.
Qed.

(** X5: when the [lseek] of [size()] fails, [size()] returns -1 and the
    failure is not reported: nothing is published to the notifier or stored
    in the thread's slot, and no cursor moves. *)
Theorem size_failure_is_silent this e rest w :
  FileHandle.m_fd this ≠ -1 →
  script w = Err e :: rest →
  ∃ w',
    FileHandle.size this w = Done (-1) w'
    ∧ errno w' = e
    ∧ notified w' = notified w ∧ slots w' = slots w
    ∧ fdtable w' = fdtable w.
Proof.
  intros Hfd Hs.
  unfold FileHandle.size. rewrite (opened_fd_eqb _ Hfd). cbn [negb].
  rewrite WCTInnerAssert_true.
  unfold bind, ret, Posix.lseek, Posix.syscall, bind. cbv beta. rewrite Hs.
  cbn. eexists. split; [reflexivity|]. done.
Qed.

(** [open] on a closed handle starves when the script holds fewer than the
    two answers its two [::open] calls take. *)
Lemma open_closed_starves mode this w :
  FileHandle.m_fd this = -1 → mode ≠ Mode.None →
  (length (script w) < 2)%nat →
  FileHandle.open mode this w = Starved.
Proof.
  intros Hfd Hmode Hlen.
  unfold FileHandle.open, FileHandle.isOpened. rewrite Hfd, Z.eqb_refl.
  destruct mode; [done| |];
    cbn [Mode.eqb negb]; rewrite WCTInnerAssert_true;
    unfold WCTRemedialAssert;
    unfold bind, ret, Posix.open, Posix.syscall, bind; cbv beta;
    change (Z.land (Z.lor (Z.lor Sys.O_CREAT Sys.O_WRONLY) Sys.O_TRUNC) Sys.O_TRUNC =? 0)
      with false;
    change (Z.land Sys.O_RDONLY Sys.O_TRUNC =? 0) with true;
    destruct (script w) as [|a1 [|a2 rest]] eqn:Hs; cbn [length] in Hlen; try lia;
    try reflexivity;
    destruct a1 as [v1|e1]; cbn; reflexivity.
Qed.

(** X6: whenever [open] returns, the value returned tells whether the
    handle is open afterwards, and the call has changed neither the path
    nor the mode field of the handle. *)
Theorem open_result_invariant mode this w ok this' w' :
  FileHandle.open mode this w = Done (ok, this') w' →
  ok = FileHandle.isOpened this'
  ∧ FileHandle.path this' = FileHandle.path this
  ∧ FileHandle.m_mode this' = FileHandle.m_mode this.
Proof.
  intros Hopen.
  destruct (decide (FileHandle.m_fd this = -1)) as [Hfd|Hfd].
  - assert (Hcase : mode = Mode.None ∨ mode ≠ Mode.None)
      by (destruct mode; (left; reflexivity) || (right; discriminate)).
    destruct Hcase as [->|Hmode].
    + unfold FileHandle.open, FileHandle.isOpened, WCTInnerAssert, WCTRemedialAssert in Hopen.
      rewrite Hfd, Z.eqb_refl in Hopen. cbn [Mode.eqb negb] in Hopen.
      destruct inner_assertions; cbn in Hopen; [discriminate|].
      injection Hopen as <- <- <-.
      unfold FileHandle.isOpened. rewrite Hfd. done.
    + destruct (script w) as [|a1 [|a2 rest]] eqn:Hs.
      * rewrite open_closed_starves in Hopen by (rewrite ?Hs; cbn; done || lia).
        discriminate.
      * rewrite open_closed_starves in Hopen by (rewrite ?Hs; cbn; done || lia).
        discriminate.
      * destruct (open_closed_enters_twice mode this a1 a2 rest w Hfd Hmode Hs)
          as (ok0 & fd & w0 & Heq & _ & Hok & _).
        rewrite Heq in Hopen. injection Hopen as <- <- <-.
        subst ok0. done.
  - unfold FileHandle.open, FileHandle.isOpened, WCTInnerAssert, WCTRemedialAssert in Hopen.
    rewrite (opened_fd_eqb _ Hfd) in Hopen. cbn [negb] in Hopen.
    destruct (inner_assertions && negb (negb (Mode.eqb mode Mode.None)));
      cbn in Hopen; [discriminate|].
    injection Hopen as <- <- <-.
    unfold FileHandle.isOpened. rewrite (opened_fd_eqb _ Hfd). done.
Qed.

(** X7: when the last [::open] of [open] fails, with whatever [errno],
    [EINTR] included (there is no retry), [open] returns false and leaves
    the handle closed; one [Error] is built with that [errno] as system
    code, kind [IOError], [strerror]'s message and the path, published and
    stored in the calling thread's slot.  A descriptor that the first
    [::open] had handed out stays live in the table. *)
Theorem open_failure_recorded mode this a1 e rest w :
  FileHandle.m_fd this = -1 → mode ≠ Mode.None →
  script w = a1 :: Err e :: rest →
  ∃ w',
    FileHandle.open mode this w = Done (false, this) w'
    ∧ notified w' = notified w ++ [io_error (FileHandle.path this) e]
    ∧ slots w' !! self w = Some (io_error (FileHandle.path this) e)
    ∧ Error.systemCode (io_error (FileHandle.path this) e) = Some e
    ∧ Error.infos (io_error (FileHandle.path this) e) !! "Path" = Some (FileHandle.path this)
    ∧ (∀ fd1, a1 = Ret fd1 → fdtable w' !! fd1 = Some 0).
Proof.
  intros Hfd Hmode Hs.
  unfold FileHandle.open, FileHandle.isOpened. rewrite Hfd, Z.eqb_refl.
  destruct this as [p fd m]. cbn [FileHandle.m_fd] in Hfd. subst fd.
  destruct mode; [done| |];
    cbn [Mode.eqb negb]; rewrite WCTInnerAssert_true;
    unfold WCTRemedialAssert;
    unfold bind, ret, Posix.open, Posix.syscall, bind; cbv beta; rewrite Hs;
    change (Z.land (Z.lor (Z.lor Sys.O_CREAT Sys.O_WRONLY) Sys.O_TRUNC) Sys.O_TRUNC =? 0)
      with false;
    change (Z.land Sys.O_RDONLY Sys.O_TRUNC =? 0) with true;
    destruct a1 as [v1|e1]; cbn;
    eexists; (split; [reflexivity|]); cbn;
    (split; [done|]); (split; [apply lookup_insert_eq|]);
    (split; [done|]); (split; [apply lookup_singleton_eq|]);
    intros fd1 Heq; inversion Heq; subst; apply lookup_insert_eq.
Qed.

(** X8: after move construction, and after move assignment between handles
    on one path, the handle moved from is closed and its destructor does
    nothing, while the destination holds the descriptor moved; neither
    operation enters the kernel, so a descriptor the destination of an
    assignment held before is not released. *)
Theorem moved_from_is_inert this other w :
  FileHandle.path this = FileHandle.path other →
  (let '(built, emptied) := FileHandle.move_construct other in
   FileHandle.m_fd built = FileHandle.m_fd other
   ∧ FileHandle.isOpened emptied = false
   ∧ FileHandle.destroy emptied w = Done emptied w)
  ∧ ∃ this' other',
      FileHandle.move_assign this other w = Done (this', other') w
      ∧ FileHandle.m_fd this' = FileHandle.m_fd other
      ∧ FileHandle.isOpened other' = false
      ∧ FileHandle.destroy other' w = Done other' w.
Proof.
  intros Hp. split.
  - cbn. repeat split.
  - rewrite (move_assign_same_path this other w Hp).
    do 2 eexists. split; [reflexivity|]. repeat split.
Qed.

(** X9: on a closed handle, a successful [open] followed by [close] brings
    the handle back to the state it started from; the kernel has seen two
    [::open] calls and one [::close], of the descriptor of the second. *)
Theorem open_then_close mode this a1 fd a3 rest w :
  FileHandle.m_fd this = -1 → mode ≠ Mode.None → fd ≠ -1 →
  script w = a1 :: Ret fd :: a3 :: rest →
  ∃ opened w1 w2,
    FileHandle.open mode this w = Done (true, opened) w1
    ∧ FileHandle.m_fd opened = fd
    ∧ FileHandle.close opened w1 = Done this w2
    ∧ script w2 = rest
    ∧ calls w2 = calls w
        ++ [match mode with
            | Mode.OverWrite => SysOpen (FileHandle.path this) 577 (Some 484)
            | _ => SysOpen (FileHandle.path this) Sys.O_RDONLY Datatypes.None
            end;
            SysOpen (FileHandle.path this) 0 Datatypes.None;
            SysClose fd].
Proof.
  intros Hfd Hmode Hne Hs.
  destruct (open_closed_enters_twice mode this a1 (Ret fd) (a3 :: rest) w Hfd Hmode Hs)
    as (ok & fd' & w1 & Hopen & -> & -> & Hscr & Hcalls).
  destruct (close_opened (FileHandle.mk (FileHandle.path this) fd (FileHandle.m_mode this))
              a3 rest w1 Hne Hscr)
    as (w2 & Hclose & Hscr2 & Hcalls2).
  exists (FileHandle.mk (FileHandle.path this) fd (FileHandle.m_mode this)), w1, w2.
  rewrite Hopen, Hclose.
  assert (Hneq : (fd =? -1) = false) by (apply Z.eqb_neq; done).
  rewrite Hneq. cbn [negb].
  split; [done|]. split; [done|].
  split.
  { destruct this as [p f m]. cbn in *. subst f. reflexivity. }
  split; [done|].
  rewrite Hcalls2, Hcalls. cbn [FileHandle.m_fd]. rewrite <- (assoc_L (++)). reflexivity.
Qed.

End LifecycleMore.

(** * Further properties of the transfers *)

Section TransfersMore.

Context {P : Platform}.

Lemma read_loop_only_reads f :
  ∀ this buffer offset size prior w r w',
    Forall sane (script w) →
    FileHandle.read_loop f this buffer offset size prior w = Done r w' →
    content w' = content w ∧ fdtable w' = fdtable w ∧ fatals w' = fatals w
    ∧ (∃ cs, calls w' = calls w ++ cs ∧ Forall (is_pread (FileHandle.m_fd this)) cs)
    ∧ (notified w' = notified w
       ∨ r = -1 ∧ ∃ e, e ≠ Sys.EINTR
                       ∧ notified w' = notified w ++ [io_error (FileHandle.path this) e]).
Proof.
  induction f as [|f IH]; intros this buffer offset size prior w r w' Hsane H; [discriminate|].
  cbn [FileHandle.read_loop] in H. unfold bind at 1 in H.
  unfold Posix.pread, bind, Posix.syscall in H.
  destruct (script w) as [|a s] eqn:Hs; [discriminate|].
  apply Forall_cons in Hsane as [Ha Hsane].
  assert (Hone : is_pread (FileHandle.m_fd this)
                   (SysPread (FileHandle.m_fd this) buffer size offset))
    by (do 3 eexists; reflexivity).
  destruct a as [v|e]; cbn [sane] in Ha;
    cbn -[C.size_t C.ssize_t C.off_t Z.ltb Z.eqb] in H;
    repeat match type of H with
           | context [if ?c then _ else _] => destruct c eqn:?
           end;
    try discriminate;
    try match goal with Hneg : (v <? 0) = true |- _ => apply Z.ltb_lt in Hneg; lia end;
    first
      [ injection H as <- <-; cbn;
        (split; [done|]); (split; [done|]); (split; [done|]);
        split; [eexists; split; [reflexivity|]; by constructor|]
      | apply IH in H as (Hc & Hfd & Hfa & (cs & Hcalls & Hcs) & Hn); [|exact Hsane];
        cbn in Hc, Hfd, Hfa, Hcalls, Hn;
        (split; [done|]); (split; [done|]); (split; [done|]);
        split; [exists (SysPread (FileHandle.m_fd this) buffer size offset :: cs);
                split; [by rewrite Hcalls, <- (assoc_L (++))|by constructor]|] ];
    try exact Hn; try (left; done).
  right. split; [done|]. exists e. split; [by apply Z.eqb_neq|done].
Qed.

Lemma write_loop_only_writes f :
  ∀ this buffer offset size prior w r w',
    Forall sane (script w) →
    FileHandle.write_loop f this buffer offset size prior w = Done r w' →
    mem w' = mem w ∧ fdtable w' = fdtable w ∧ fatals w' = fatals w
    ∧ (∃ cs, calls w' = calls w ++ cs ∧ Forall (is_pwrite (FileHandle.m_fd this)) cs)
    ∧ (notified w' = notified w
       ∨ ∃ e, e ≠ Sys.EINTR
              ∧ notified w' = notified w ++ [io_error (FileHandle.path this) e]).
Proof.
  induction f as [|f IH]; intros this buffer offset size prior w r w' Hsane H; [discriminate|].
  cbn [FileHandle.write_loop] in H. unfold bind at 1 in H.
  unfold Posix.pwrite, bind, Posix.syscall in H.
  destruct (script w) as [|a s] eqn:Hs; [discriminate|].
  apply Forall_cons in Hsane as [Ha Hsane].
  assert (Hone : is_pwrite (FileHandle.m_fd this)
                   (SysPwrite (FileHandle.m_fd this) buffer size offset))
    by (do 3 eexists; reflexivity).
  destruct a as [v|e]; cbn [sane] in Ha;
    cbn -[C.size_t C.ssize_t C.off_t Z.ltb Z.eqb] in H;
    repeat match type of H with
           | context [if ?c then _ else _] => destruct c eqn:?
           end;
    try discriminate;
    try match goal with Hneg : (v <? 0) = true |- _ => apply Z.ltb_lt in Hneg; lia end;
    first
      [ injection H as <- <-; cbn;
        (split; [done|]); (split; [done|]); (split; [done|]);
        split; [eexists; split; [reflexivity|]; by constructor|]
      | apply IH in H as (Hc & Hfd & Hfa & (cs & Hcalls & Hcs) & Hn); [|exact Hsane];
        cbn in Hc, Hfd, Hfa, Hcalls, Hn;
        (split; [done|]); (split; [done|]); (split; [done|]);
        split; [exists (SysPwrite (FileHandle.m_fd this) buffer size offset :: cs);
                split; [by rewrite Hcalls, <- (assoc_L (++))|by constructor]|] ];
    try exact Hn; try (left; done).
  right. exists e. split; [by apply Z.eqb_neq|done].
Qed.

(** X10: whatever a sane kernel answers, a [read] that returns has issued
    nothing but positioned reads on the handle's own descriptor, has left
    the file's bytes and every cursor as they were, and has published at
    most one [Error], and that only when it returns -1. *)
Theorem read_only_reads this buffer offset size w r w' :
  Forall sane (script w) →
  FileHandle.read this buffer offset size w = Done r w' →
  content w' = content w ∧ fdtable w' = fdtable w
  ∧ (∃ cs, calls w' = calls w ++ cs ∧ Forall (is_pread (FileHandle.m_fd this)) cs)
  ∧ (notified w' = notified w
     ∨ r = -1 ∧ ∃ e, e ≠ Sys.EINTR
                     ∧ notified w' = notified w ++ [io_error (FileHandle.path this) e]).
Proof.
  intros Hsane H. unfold FileHandle.read, WCTInnerAssert in H.
  destruct (inner_assertions && negb (negb (FileHandle.m_fd this =? -1)));
    [discriminate|].
  unfold bind at 1, ret at 1 in H.
  apply read_loop_only_reads in H as (Hc & Hfd & _ & Hcalls & Hn); [|exact Hsane].
  done.
Qed.

(** X11: whatever a sane kernel answers, a [write] that returns has issued
    nothing but positioned writes on the handle's own descriptor, has left
    the caller's memory and every cursor as they were, and has published at
    most one [Error]. *)
Theorem write_only_writes this buffer offset size w r w' :
  Forall sane (script w) →
  FileHandle.write this buffer offset size w = Done r w' →
  mem w' = mem w ∧ fdtable w' = fdtable w
  ∧ (∃ cs, calls w' = calls w ++ cs ∧ Forall (is_pwrite (FileHandle.m_fd this)) cs)
  ∧ (notified w' = notified w
     ∨ ∃ e, e ≠ Sys.EINTR
            ∧ notified w' = notified w ++ [io_error (FileHandle.path this) e]).
Proof.
  intros Hsane H. unfold FileHandle.write, WCTInnerAssert in H.
  destruct (inner_assertions && negb (negb (FileHandle.m_fd this =? -1)));
    [discriminate|].
  unfold bind at 1, ret at 1 in H.
  apply write_loop_only_writes in H as (Hc & Hfd & _ & Hcalls & Hn); [|exact Hsane].
  done.
Qed.

(** An attempt of [write] that moves nothing ends the loop with the count
    so far. *)
Lemma write_loop_zero f this buffer offset size prior w s :
  script w = Ret 0 :: s → size ≠ 0 →
  FileHandle.write_loop (S f) this buffer offset size prior w
  = Done (C.ssize_t (0 + prior))
      (set_calls (calls w ++ [SysPwrite (FileHandle.m_fd this) buffer size offset])
         (set_script s w)).
Proof.
  intros Hs Hsz.
  cbn [FileHandle.write_loop]. unfold bind at 1. unfold Posix.pwrite, bind, Posix.syscall.
  rewrite Hs.
  assert (Hne : (C.size_t 0 =? size) = false) by (apply Z.eqb_neq; cbv; lia).
  rewrite Hne. reflexivity.
Qed.

Lemma read_loop_retries k :
  ∀ f this buffer offset size prior w rest,
    script w = replicate k (Err Sys.EINTR) ++ Ret size :: rest →
    0 ≤ size < C.SIZE_MOD - 1 →
    ∃ w',
      FileHandle.read_loop (k + S f) this buffer offset size prior w
      = Done (C.ssize_t (size + prior)) w'
      ∧ script w' = rest
      ∧ calls w' = calls w
          ++ replicate (S k) (SysPread (FileHandle.m_fd this) buffer size offset)
      ∧ notified w' = notified w ∧ slots w' = slots w ∧ content w' = content w
      ∧ mem w' = if 0 <? size
                 then Posix.splice (mem w) buffer (Posix.slice (content w) offset size)
                 else mem w.
Proof.
  induction k as [|k IH]; intros f this buffer offset size prior w rest Hs Hsz.
  - cbn [replicate app Nat.add] in Hs |- *.
    rewrite (read_loop_full _ _ _ _ _ _ _ rest) by (done || lia).
    eexists. split; [reflexivity|].
    destruct (0 <? size); cbn; done.
  - cbn [replicate app Nat.add] in Hs |- *.
    rewrite (read_loop_interrupted _ _ _ _ _ _ _ (replicate k (Err Sys.EINTR) ++ Ret size :: rest))
      by (done || lia).
    destruct (IH f this buffer offset size prior
                (set_errno Sys.EINTR
                   (set_calls (calls w ++ [SysPread (FileHandle.m_fd this) buffer size offset])
                      (set_script (replicate k (Err Sys.EINTR) ++ Ret size :: rest) w)))
                rest eq_refl Hsz)
      as (w' & Hrun & Hscr & Hcalls & Hrest).
    exists w'. split; [exact Hrun|]. split; [exact Hscr|].
    split; [|exact Hrest].
    rewrite Hcalls. cbn [calls set_errno set_calls set_script replicate].
    rewrite <- (assoc_L (++)). reflexivity.
Qed.

Lemma write_loop_retries k :
  ∀ f this buffer offset size prior w rest,
    script w = replicate k (Err Sys.EINTR) ++ Ret size :: rest →
    0 ≤ size < C.SIZE_MOD - 1 →
    ∃ w',
      FileHandle.write_loop (k + S f) this buffer offset size prior w
      = Done (C.ssize_t (size + prior)) w'
      ∧ script w' = rest
      ∧ calls w' = calls w
          ++ replicate (S k) (SysPwrite (FileHandle.m_fd this) buffer size offset)
      ∧ notified w' = notified w ∧ slots w' = slots w ∧ mem w' = mem w
      ∧ content w' = if 0 <? size
                     then Posix.splice (content w) offset (Posix.slice (mem w) buffer size)
                     else content w.
Proof.
  induction k as [|k IH]; intros f this buffer offset size prior w rest Hs Hsz.
  - cbn [replicate app Nat.add] in Hs |- *.
    rewrite (write_loop_full _ _ _ _ _ _ _ rest) by (done || lia).
    eexists. split; [reflexivity|].
    destruct (0 <? size); cbn; done.
  - cbn [replicate app Nat.add] in Hs |- *.
    rewrite (write_loop_interrupted _ _ _ _ _ _ _ (replicate k (Err Sys.EINTR) ++ Ret size :: rest))
      by (done || lia).
    destruct (IH f this buffer offset size prior
                (set_errno Sys.EINTR
                   (set_calls (calls w ++ [SysPwrite (FileHandle.m_fd this) buffer size offset])
                      (set_script (replicate k (Err Sys.EINTR) ++ Ret size :: rest) w)))
                rest eq_refl Hsz)
      as (w' & Hrun & Hscr & Hcalls & Hrest).
    exists w'. split; [exact Hrun|]. split; [exact Hscr|].
    split; [|exact Hrest].
    rewrite Hcalls. cbn [calls set_errno set_calls set_script replicate].
    rewrite <- (assoc_L (++)). reflexivity.
Qed.

(** X12: however often the positioned read is interrupted by a signal,
    [read] asks again with the same buffer, size and offset: after [k]
    interruptions and one full transfer it returns [size], having entered
    the kernel [k + 1] times with identical arguments and reported nothing.
    A read of zero bytes is such a call too. *)
Theorem read_retries_every_interruption k this buffer offset size rest w :
  FileHandle.m_fd this ≠ -1 →
  0 ≤ size ≤ C.SSIZE_MAX →
  script w = replicate k (Err Sys.EINTR) ++ Ret size :: rest →
  ∃ w',
    FileHandle.read this buffer offset size w = Done size w'
    ∧ script w' = rest
    ∧ calls w' = calls w
        ++ replicate (S k) (SysPread (FileHandle.m_fd this) buffer size offset)
    ∧ notified w' = notified w ∧ slots w' = slots w ∧ content w' = content w
    ∧ mem w' = if 0 <? size
               then Posix.splice (mem w) buffer (Posix.slice (content w) offset size)
               else mem w.
Proof.
  intros Hfd Hsz Hs.
  unfold FileHandle.read. rewrite (opened_fd_eqb _ Hfd). cbn [negb].
  rewrite WCTInnerAssert_true. unfold bind at 1, ret at 1.
  rewrite Hs, length_app, length_replicate. cbn [length].
  replace (S (k + S (length rest)))%nat with (k + S (S (length rest)))%nat by lia.
  destruct (read_loop_retries k (S (length rest)) this buffer offset size 0 w rest Hs)
    as (w' & Hrun & Hrest); [unfold C.SIZE_MOD, C.SSIZE_MAX in *; lia|].
  rewrite Hrun, Z.add_0_r, ssize_t_small by (unfold C.SSIZE_MAX in *; lia).
  exists w'. split; [reflexivity|exact Hrest].
Qed.

(** X13: the same for [write]: after [k] interruptions and one full
    transfer it returns [size], having entered the kernel [k + 1] times
    with identical arguments and reported nothing. *)
Theorem write_retries_every_interruption k this buffer offset size rest w :
  FileHandle.m_fd this ≠ -1 →
  0 ≤ size ≤ C.SSIZE_MAX →
  script w = replicate k (Err Sys.EINTR) ++ Ret size :: rest →
  ∃ w',
    FileHandle.write this buffer offset size w = Done size w'
    ∧ script w' = rest
    ∧ calls w' = calls w
        ++ replicate (S k) (SysPwrite (FileHandle.m_fd this) buffer size offset)
    ∧ notified w' = notified w ∧ slots w' = slots w ∧ mem w' = mem w
    ∧ content w' = if 0 <? size
                   then Posix.splice (content w) offset (Posix.slice (mem w) buffer size)
                   else content w.
Proof.
  intros Hfd Hsz Hs.
  unfold FileHandle.write. rewrite (opened_fd_eqb _ Hfd). cbn [negb].
  rewrite WCTInnerAssert_true. unfold bind at 1, ret at 1.
  rewrite Hs, length_app, length_replicate. cbn [length].
  replace (S (k + S (length rest)))%nat with (k + S (S (length rest)))%nat by lia.
  destruct (write_loop_retries k (S (length rest)) this buffer offset size 0 w rest Hs)
    as (w' & Hrun & Hrest); [unfold C.SIZE_MOD, C.SSIZE_MAX in *; lia|].
  rewrite Hrun, Z.add_0_r, ssize_t_small by (unfold C.SSIZE_MAX in *; lia).
  exists w'. split; [reflexivity|exact Hrest].
Qed.

(** X14: a read that meets the end of the file (an attempt that moves no
    byte) after short transfers and interruptions returns the count of the
    bytes moved so far, which are in the caller's buffer; this is no error:
    nothing is published or stored. *)
Theorem read_stops_at_end_of_file l rest this buffer offset size w :
  FileHandle.m_fd this ≠ -1 →
  Forall progresses l → moved l < size →
  script w = l ++ Ret 0 :: rest →
  0 ≤ offset → offset + size ≤ C.SSIZE_MAX →
  0 ≤ buffer → buffer + size ≤ Z.of_nat (length (mem w)) →
  offset + moved l ≤ Z.of_nat (length (content w)) →
  ∃ w',
    FileHandle.read this buffer offset size w = Done (moved l) w'
    ∧ script w' = rest
    ∧ notified w' = notified w ∧ slots w' = slots w
    ∧ mem w' = Posix.splice (mem w) buffer (Posix.slice (content w) offset (moved l)).
Proof.
  intros Hfd Hl Hm Hs Ho Hos Hb Hbs Hcs.
  pose proof (moved_nonneg l Hl) as Hnn.
  unfold FileHandle.read. rewrite (opened_fd_eqb _ Hfd). cbn [negb].
  rewrite WCTInnerAssert_true. unfold bind at 1, ret at 1.
  rewrite Hs, length_app. cbn [length].
  replace (S (length l + S (length rest)))%nat with (length l + S (S (length rest)))%nat by lia.
  destruct (read_loop_prefix l Hl (S (S (length rest))) this buffer offset size 0 w
              (Ret 0 :: rest))
    as (w1 & Hrun & Hscr & Hfr & Hmem); try lia; [done|].
  rewrite Hrun.
  rewrite (read_loop_eof _ _ _ _ _ _ _ rest) by (done || lia).
  rewrite ssize_t_small by (unfold C.SSIZE_MAX in *; lia).
  replace (0 + (0 + moved l)) with (moved l) by lia.
  destruct Hfr as (Hn & Hsl & _).
  eexists. split; [reflexivity|]. cbn.
  repeat split; try done. apply Hmem; lia.
Qed.

(** X15: a write one of whose attempts moves no byte, after short transfers
    and interruptions, stops there and returns the count of the bytes
    written so far, which are in the file; nothing is published or
    stored. *)
Theorem write_stops_at_zero l rest this buffer offset size w :
  FileHandle.m_fd this ≠ -1 →
  Forall progresses l → moved l < size →
  script w = l ++ Ret 0 :: rest →
  0 ≤ offset → offset + size ≤ C.SSIZE_MAX →
  0 ≤ buffer → buffer + size ≤ Z.of_nat (length (mem w)) →
  ∃ w',
    FileHandle.write this buffer offset size w = Done (moved l) w'
    ∧ script w' = rest
    ∧ notified w' = notified w ∧ slots w' = slots w
    ∧ content w' = if 0 <? moved l
                   then Posix.splice (content w) offset (Posix.slice (mem w) buffer (moved l))
                   else content w.
Proof.
  intros Hfd Hl Hm Hs Ho Hos Hb Hbs.
  pose proof (moved_nonneg l Hl) as Hnn.
  unfold FileHandle.write. rewrite (opened_fd_eqb _ Hfd). cbn [negb].
  rewrite WCTInnerAssert_true. unfold bind at 1, ret at 1.
  rewrite Hs, length_app. cbn [length].
  replace (S (length l + S (length rest)))%nat with (length l + S (S (length rest)))%nat by lia.
  destruct (write_loop_prefix l Hl (S (S (length rest))) this buffer offset size 0 w
              (Ret 0 :: rest))
    as (w1 & Hrun & Hscr & Hfr & Hdata); try lia; [done|].
  rewrite Hrun.
  rewrite (write_loop_zero _ _ _ _ _ _ _ rest) by (done || lia).
  rewrite ssize_t_small by (unfold C.SSIZE_MAX in *; lia).
  replace (0 + (0 + moved l)) with (moved l) by lia.
  destruct Hfr as (Hn & Hsl & _).
  eexists. split; [reflexivity|]. cbn.
  repeat split; try done. apply Hdata; lia.
Qed.

Lemma length_splice dst pos src :
  length (Posix.splice dst pos src)
  = Nat.max (length dst) (Z.to_nat pos + length src).
Proof.
  unfold Posix.splice.
  rewrite !length_app, length_take, length_replicate, length_drop. lia.
Qed.

(** X16: round trip.  A write of [size] bytes from [src] at [offset] that
    completes, followed by a read of [size] bytes at the same offset into
    [dst] that completes (through the same or another open handle, each
    call with any short transfers and interruptions on its way), leaves in
    [dst] the bytes that were at [src]; both calls return [size] and
    nothing is reported. *)
Theorem write_then_read writer reader l1 l2 rest src dst offset size w :
  FileHandle.m_fd writer ≠ -1 → FileHandle.m_fd reader ≠ -1 →
  Forall progresses l1 → moved l1 < size →
  Forall progresses l2 → moved l2 < size →
  script w = l1 ++ Ret (size - moved l1) :: l2 ++ Ret (size - moved l2) :: rest →
  0 ≤ offset → offset + size ≤ C.SSIZE_MAX →
  0 ≤ src → src + size ≤ Z.of_nat (length (mem w)) →
  0 ≤ dst → dst + size ≤ Z.of_nat (length (mem w)) →
  ∃ w1 w2,
    FileHandle.write writer src offset size w = Done size w1
    ∧ FileHandle.read reader dst offset size w1 = Done size w2
    ∧ Posix.slice (mem w2) dst size = Posix.slice (mem w) src size
    ∧ notified w2 = notified w ∧ slots w2 = slots w
    ∧ script w2 = rest.
Proof.
  intros Hw Hr Hl1 Hm1 Hl2 Hm2 Hs Ho Hos Hsrc Hsrcs Hdst Hdsts.
  pose proof (moved_nonneg l1 Hl1) as Hnn.
  destruct (write_transfers_all l1 (l2 ++ Ret (size - moved l2) :: rest)
              writer src offset size w)
    as (w1 & Hwrite & Hscr1 & (Hn1 & Hsl1 & _ & Hmem1 & _) & Hdata); try done.
  assert (Hlen : length (Posix.slice (mem w) src size) = Z.to_nat size)
    by (apply length_slice; lia).
  assert (Hback : Posix.slice (content w1) offset size = Posix.slice (mem w) src size).
  { rewrite Hdata.
    replace size with (Z.of_nat (length (Posix.slice (mem w) src size))) at 2 by lia.
    apply slice_splice. lia. }
  destruct (read_transfers_all l2 rest reader dst offset size w1)
    as (w2 & Hread & Hscr2 & (Hn2 & Hsl2 & _) & Hmem2); try done.
  { rewrite Hmem1. done. }
  { rewrite Hdata, length_splice. lia. }
  exists w1, w2. split; [done|]. split; [done|].
  split.
  { rewrite Hmem2, Hback.
    pose proof (slice_splice (mem w1) dst (Posix.slice (mem w) src size) Hdst) as Hget.
    rewrite Hlen, Z2Nat.id in Hget by lia. exact Hget. }
  repeat split; congruence.
Qed.

(** X17: after a write of at least one byte that completes, [size()]
    returns the length the file has now: the old length, or the end of the
    bytes written where that lies beyond it. *)
Theorem write_then_size this l v rest buffer offset size w :
  FileHandle.m_fd this ≠ -1 →
  Forall progresses l → moved l < size →
  script w = l ++ Ret (size - moved l) :: Ret v :: rest →
  0 ≤ offset → offset + size ≤ C.SSIZE_MAX →
  0 ≤ buffer → buffer + size ≤ Z.of_nat (length (mem w)) →
  Z.of_nat (length (content w)) ≤ C.SSIZE_MAX →
  ∃ w1 w2,
    FileHandle.write this buffer offset size w = Done size w1
    ∧ FileHandle.size this w1
      = Done (Z.max (Z.of_nat (length (content w))) (offset + size)) w2
    ∧ script w2 = rest.
Proof.
  intros Hfd Hl Hm Hs Ho Hos Hb Hbs Hlen.
  pose proof (moved_nonneg l Hl) as Hnn.
  destruct (write_transfers_all l (Ret v :: rest) this buffer offset size w)
    as (w1 & Hwrite & Hscr1 & _ & Hdata); try done.
  assert (Hsl : length (Posix.slice (mem w) buffer size) = Z.to_nat size)
    by (apply length_slice; lia).
  exists w1. eexists. split; [exact Hwrite|].
  unfold FileHandle.size. rewrite (opened_fd_eqb _ Hfd). cbn [negb].
  rewrite WCTInnerAssert_true.
  unfold bind, ret, Posix.lseek, Posix.syscall, bind. cbv beta. rewrite Hscr1.
  change (Sys.SEEK_END =? Sys.SEEK_SET) with false.
  change (Sys.SEEK_END =? Sys.SEEK_CUR) with false.
  change (Sys.SEEK_END =? Sys.SEEK_END) with true.
  cbv iota beta zeta. cbn [content fdtable set_calls set_script]. rewrite Z.add_0_r.
  rewrite Hdata, length_splice, Hsl.
  rewrite ssize_t_small by (unfold C.SSIZE_MAX in *; lia).
  split; [f_equal; lia|reflexivity].
Qed.

End TransfersMore.

(** ** Instances of the further properties *)

Ltac settle :=
  first
    [ discriminate
    | reflexivity
    | lia
    | vm_compute; discriminate
    | split; vm_compute; discriminate
    | repeat (constructor; [cbn; first [lia | exact I | reflexivity]|]); constructor ].

Lemma destroy_leaves_alone_witness :
  FileHandle.destroy (P:=development_build) (FileHandle.mk "a.db" 3 Mode.ReadOnly) (with_fd3 [])
  = Done (FileHandle.mk "a.db" 3 Mode.ReadOnly) (with_fd3 []).
Proof.
  apply (destroy_leaves_alone (P:=development_build)
           (FileHandle.mk "a.db" 3 Mode.ReadOnly) (with_fd3 [])).
  right. discriminate.
Defined.

Lemma destroy_closes_overwrite_witness :
  ∃ w',
    FileHandle.destroy (P:=development_build) (FileHandle.mk "a.db" 3 Mode.OverWrite)
      (with_fd3 [Ret 0])
    = Done (FileHandle.mk "a.db" (-1) Mode.OverWrite) w'
    ∧ calls w' = [] ++ [SysClose 3]
    ∧ fatals w' = [] ++ ["Close should be call manually to sync file."]
    ∧ script w' = []
    ∧ notified w' = [].
Proof.
  apply (destroy_closes_overwrite (P:=development_build)
           (FileHandle.mk "a.db" 3 Mode.OverWrite) (Ret 0) [] (with_fd3 [Ret 0])); settle.
Defined.

Lemma open_mode_none_witness :
  FileHandle.open (P:=release_build) Mode.None (FileHandle.new "a.db") (fresh [] [] [])
  = Done (false, FileHandle.new "a.db") (fresh [] [] []).
Proof.
  exact (open_mode_none (P:=release_build) (FileHandle.new "a.db") (fresh [] [] []) eq_refl).
Defined.

Lemma close_ignores_answer_witness :
  ∃ w',
    FileHandle.close (P:=development_build) opened3 (with_fd3 [Err 5])
    = Done (FileHandle.set_fd (-1) opened3) w'
    ∧ FileHandle.isOpened (FileHandle.set_fd (-1) opened3) = false
    ∧ calls w' = [] ++ [SysClose 3]
    ∧ notified w' = [] ∧ slots w' = ∅
    ∧ errno w' = 5
    ∧ fdtable w' = {[ 3 := 0 ]}.
Proof.
  apply (close_ignores_answer (P:=development_build) opened3 (Err 5) [] (with_fd3 [Err 5]));
    settle.
Defined.

Lemma size_failure_is_silent_witness :
  ∃ w',
    FileHandle.size (P:=release_build) opened3 (with_fd3 [Err 9]) = Done (-1) w'
    ∧ errno w' = 9
    ∧ notified w' = [] ∧ slots w' = ∅
    ∧ fdtable w' = {[ 3 := 0 ]}.
Proof.
  apply (size_failure_is_silent (P:=release_build) opened3 9 [] (with_fd3 [Err 9])); settle.
Defined.

Lemma open_result_invariant_witness :
  true = FileHandle.isOpened (FileHandle.mk "a.db" 4 Mode.None)
  ∧ FileHandle.path (FileHandle.mk "a.db" 4 Mode.None) = FileHandle.path (FileHandle.new "a.db")
  ∧ FileHandle.m_mode (FileHandle.mk "a.db" 4 Mode.None)
    = FileHandle.m_mode (FileHandle.new "a.db").
Proof.
  assert (Hrun : ∃ w', FileHandle.open (P:=release_build) Mode.ReadOnly (FileHandle.new "a.db")
                         (fresh [Ret 3; Ret 4] [] [])
                       = Done (true, FileHandle.mk "a.db" 4 Mode.None) w')
    by (vm_compute; eexists; reflexivity).
  destruct Hrun as [w' Hrun].
  exact (open_result_invariant (P:=release_build) Mode.ReadOnly (FileHandle.new "a.db")
           (fresh [Ret 3; Ret 4] [] []) true (FileHandle.mk "a.db" 4 Mode.None) w' Hrun).
Defined.

Lemma open_failure_recorded_witness :
  ∃ w',
    FileHandle.open (P:=release_build) Mode.OverWrite (FileHandle.new "a.db")
      (fresh [Ret 3; Err 4] [] [])
    = Done (false, FileHandle.new "a.db") w'
    ∧ notified w' = [] ++ [io_error (P:=release_build) "a.db" 4]
    ∧ slots w' !! 0%nat = Some (io_error (P:=release_build) "a.db" 4)
    ∧ Error.systemCode (io_error (P:=release_build) "a.db" 4) = Some 4
    ∧ Error.infos (io_error (P:=release_build) "a.db" 4) !! "Path" = Some "a.db"
    ∧ (∀ fd1, Ret 3 = Ret fd1 → fdtable w' !! fd1 = Some 0).
Proof.
  apply (open_failure_recorded (P:=release_build) Mode.OverWrite (FileHandle.new "a.db")
           (Ret 3) 4 [] (fresh [Ret 3; Err 4] [] [])); settle.
Defined.

Lemma moved_from_is_inert_witness :
  (let '(built, emptied) := FileHandle.move_construct opened3 in
   FileHandle.m_fd built = FileHandle.m_fd opened3
   ∧ FileHandle.isOpened emptied = false
   ∧ FileHandle.destroy (P:=development_build) emptied (with_fd3 []) = Done emptied (with_fd3 []))
  ∧ ∃ this' other',
      FileHandle.move_assign (P:=development_build) (FileHandle.new "a.db") opened3 (with_fd3 [])
      = Done (this', other') (with_fd3 [])
      ∧ FileHandle.m_fd this' = FileHandle.m_fd opened3
      ∧ FileHandle.isOpened other' = false
      ∧ FileHandle.destroy (P:=development_build) other' (with_fd3 []) = Done other' (with_fd3 []).
Proof.
  apply (moved_from_is_inert (P:=development_build) (FileHandle.new "a.db") opened3 (with_fd3 [])).
  reflexivity.
Defined.

Lemma open_then_close_witness :
  ∃ opened w1 w2,
    FileHandle.open (P:=development_build) Mode.OverWrite (FileHandle.new "a.db")
      (fresh [Ret 3; Ret 4; Ret 0] [] [])
    = Done (true, opened) w1
    ∧ FileHandle.m_fd opened = 4
    ∧ FileHandle.close (P:=development_build) opened w1 = Done (FileHandle.new "a.db") w2
    ∧ script w2 = []
    ∧ calls w2 = [] ++ [SysOpen "a.db" 577 (Some 484);
                        SysOpen "a.db" 0 Datatypes.None;
                        SysClose 4].
Proof.
  apply (open_then_close (P:=development_build) Mode.OverWrite (FileHandle.new "a.db")
           (Ret 3) 4 (Ret 0) [] (fresh [Ret 3; Ret 4; Ret 0] [] [])); settle.
Defined.

Lemma read_only_reads_witness :
  let w := fresh [Ret 2; Err 5] hello zeros5 in
  ∃ w',
    FileHandle.read (P:=release_build) opened3 0 0 5 w = Done (-1) w'
    ∧ content w' = content w ∧ fdtable w' = fdtable w
    ∧ (∃ cs, calls w' = calls w ++ cs ∧ Forall (is_pread 3) cs)
    ∧ (notified w' = notified w
       ∨ -1 = -1 ∧ ∃ e, e ≠ Sys.EINTR
                        ∧ notified w' = notified w ++ [io_error (P:=release_build) "a.db" e]).
Proof.
  intros w.
  assert (Hrun : ∃ w', FileHandle.read (P:=release_build) opened3 0 0 5 w = Done (-1) w')
    by (vm_compute; eexists; reflexivity).
  destruct Hrun as [w' Hrun]. exists w'. split; [exact Hrun|].
  apply (read_only_reads (P:=release_build) opened3 0 0 5 w (-1) w'); [settle|exact Hrun].
Defined.

Lemma write_only_writes_witness :
  let w := fresh [Ret 2; Err 5] [] hello in
  ∃ w',
    FileHandle.write (P:=release_build) opened3 0 0 5 w = Done 1 w'
    ∧ mem w' = mem w ∧ fdtable w' = fdtable w
    ∧ (∃ cs, calls w' = calls w ++ cs ∧ Forall (is_pwrite 3) cs)
    ∧ (notified w' = notified w
       ∨ ∃ e, e ≠ Sys.EINTR
              ∧ notified w' = notified w ++ [io_error (P:=release_build) "a.db" e]).
Proof.
  intros w.
  assert (Hrun : ∃ w', FileHandle.write (P:=release_build) opened3 0 0 5 w = Done 1 w')
    by (vm_compute; eexists; reflexivity).
  destruct Hrun as [w' Hrun]. exists w'. split; [exact Hrun|].
  apply (write_only_writes (P:=release_build) opened3 0 0 5 w 1 w'); [settle|exact Hrun].
Defined.

Lemma read_retries_every_interruption_witness :
  let w := fresh [Err 4; Err 4; Ret 5] hello zeros5 in
  ∃ w',
    FileHandle.read (P:=release_build) opened3 0 0 5 w = Done 5 w'
    ∧ script w' = []
    ∧ calls w' = calls w ++ replicate 3 (SysPread 3 0 5 0)
    ∧ notified w' = notified w ∧ slots w' = slots w ∧ content w' = content w
    ∧ mem w' = if 0 <? 5
               then Posix.splice (mem w) 0 (Posix.slice (content w) 0 5)
               else mem w.
Proof.
  intros w.
  apply (read_retries_every_interruption (P:=release_build) 2 opened3 0 0 5 [] w); settle.
Defined.

Lemma write_retries_every_interruption_witness :
  let w := fresh [Err 4; Err 4; Ret 5] [] hello in
  ∃ w',
    FileHandle.write (P:=release_build) opened3 0 0 5 w = Done 5 w'
    ∧ script w' = []
    ∧ calls w' = calls w ++ replicate 3 (SysPwrite 3 0 5 0)
    ∧ notified w' = notified w ∧ slots w' = slots w ∧ mem w' = mem w
    ∧ content w' = if 0 <? 5
                   then Posix.splice (content w) 0 (Posix.slice (mem w) 0 5)
                   else content w.
Proof.
  intros w.
  apply (write_retries_every_interruption (P:=release_build) 2 opened3 0 0 5 [] w); settle.
Defined.

Lemma read_stops_at_end_of_file_witness :
  let w := fresh [Ret 3; Ret 2; Ret 0] hello (zeros5 ++ zeros5) in
  ∃ w',
    FileHandle.read (P:=release_build) opened3 0 0 8 w = Done (moved [Ret 3; Ret 2]) w'
    ∧ script w' = []
    ∧ notified w' = notified w ∧ slots w' = slots w
    ∧ mem w' = Posix.splice (mem w) 0 (Posix.slice (content w) 0 (moved [Ret 3; Ret 2])).
Proof.
  intros w.
  apply (read_stops_at_end_of_file (P:=release_build) [Ret 3; Ret 2] [] opened3 0 0 8 w);
    settle.
Defined.

Lemma write_stops_at_zero_witness :
  let w := fresh [Ret 2; Ret 0] [] hello in
  ∃ w',
    FileHandle.write (P:=release_build) opened3 0 0 5 w = Done (moved [Ret 2]) w'
    ∧ script w' = []
    ∧ notified w' = notified w ∧ slots w' = slots w
    ∧ content w' = if 0 <? moved [Ret 2]
                   then Posix.splice (content w) 0 (Posix.slice (mem w) 0 (moved [Ret 2]))
                   else content w.
Proof.
  intros w.
  apply (write_stops_at_zero (P:=release_build) [Ret 2] [] opened3 0 0 5 w); settle.
Defined.

Lemma write_then_read_witness :
  let w := fresh [Ret 2; Ret 3; Err 4; Ret 5] [] (hello ++ zeros5) in
  ∃ w1 w2,
    FileHandle.write (P:=release_build) opened3 0 0 5 w = Done 5 w1
    ∧ FileHandle.read (P:=release_build) (FileHandle.mk "a.db" 4 Mode.None) 5 0 5 w1 = Done 5 w2
    ∧ Posix.slice (mem w2) 5 5 = Posix.slice (mem w) 0 5
    ∧ notified w2 = notified w ∧ slots w2 = slots w
    ∧ script w2 = [].
Proof.
  intros w.
  apply (write_then_read (P:=release_build) opened3 (FileHandle.mk "a.db" 4 Mode.None)
           [Ret 2] [Err 4] [] 0 5 0 5 w); settle.
Defined.

Lemma write_then_size_witness :
  let w := with_fd3 [Ret 5; Ret 0] in
  ∃ w1 w2,
    FileHandle.write (P:=release_build) opened3 0 3 5 w = Done 5 w1
    ∧ FileHandle.size (P:=release_build) opened3 w1
      = Done (Z.max (Z.of_nat (length (content w))) (3 + 5)) w2
    ∧ script w2 = [].
Proof.
  intros w.
  apply (write_then_size (P:=release_build) opened3 [] 0 [] 0 3 5 w); settle.
Defined.
